(** * VibeGo auto-responder: call escalation and media subsystem

    A shallow embedding of the TypeScript sources of the auto-responder's
    call subsystem (codec, webhook security, session tracker, escalation
    evaluator, call manager), with the properties its specification states. *)

From Stdlib Require Import ZArith String Ascii Lia Floats.SpecFloat.
From stdpp Require Import base gmap strings list.

Local Open Scope Z_scope.

(** ** Exhaustive checks over integer ranges *)

(** [forall_range f lo n] checks [f] on [lo, lo+1, ..., lo+n-1]. *)
Fixpoint forall_range (f : Z -> bool) (lo : Z) (n : nat) : bool :=
  match n with
  | O => true
  | S n' => if f lo then forall_range f (lo + 1) n' else false
  end.

(** ** Codec (tts-openai.ts: resample24kTo8k, pcmToMuLaw, pcmToMuLawSample) *)
Module Codec.

(** A Node [Buffer] is a list of bytes (each in 0..255). Every read done by
    the code below is in range (see [resample_encode] below), so the
    default of [nth] is never observed. *)
Definition byte_at (buf : list Z) (i : Z) : Z := nth (Z.to_nat i) buf 0.

(** [buf.readInt16LE(off)] *)
Definition readInt16LE (buf : list Z) (off : Z) : Z :=
  let v := byte_at buf off + 256 * byte_at buf (off + 1) in
  if v >=? 32768 then v - 65536 else v.

(** [buf.writeInt16LE(v, off)]: the two bytes written, low byte first. *)
Definition writeInt16LE (v : Z) : list Z :=
  [Z.land v 255; Z.land (Z.shiftr v 8) 255].

(** JavaScript [Math.round(s / 3)] for an integer [s]: [floor(s/3 + 1/2)]. *)
Definition round_div3 (s : Z) : Z := (2 * s + 3) / 6.

(** The body of the loop of [resample24kTo8k] for output index [i];
    [inputSamples = pcmData.length / 2] is compared as [2 * k < length]. *)
Definition resample_sample (pcmData : list Z) (i : Z) : Z :=
  let len := Z.of_nat (length pcmData) in
  let baseIdx := i * 3 in
  let s0 := readInt16LE pcmData (baseIdx * 2) in
  let s1 := if 2 * (baseIdx + 1) <? len
            then readInt16LE pcmData ((baseIdx + 1) * 2) else s0 in
  let s2 := if 2 * (baseIdx + 2) <? len
            then readInt16LE pcmData ((baseIdx + 2) * 2) else s1 in
  round_div3 (s0 + s1 + s2).

(** [outputSamples = Math.floor(inputSamples / 3) = floor(length / 6)]. *)
Definition outputSamples (pcmData : list Z) : Z :=
  Z.of_nat (length pcmData) / 6.

Definition resample24kTo8k (pcmData : list Z) : list Z :=
  List.concat
    (map (fun i => writeInt16LE (resample_sample pcmData (Z.of_nat i)))
         (seq 0 (Z.to_nat (outputSamples pcmData)))).

Fixpoint exponent_loop (pcm expMask : Z) (exponent : nat) : nat :=
  match exponent with
  | O => O
  | S e =>
      if Z.land pcm expMask =? 0
      then exponent_loop pcm (Z.shiftr expMask 1) e
      else exponent
  end.

Definition pcmToMuLawSample (pcm0 : Z) : Z :=
  let BIAS := 132 in
  let CLIP := 32635 in
  let sign := Z.land (Z.shiftr pcm0 8) 128 in
  let pcm1 := if sign =? 0 then pcm0 else - pcm0 in
  let pcm2 := if pcm1 >? CLIP then CLIP else pcm1 in
  let pcm3 := pcm2 + BIAS in
  let exponent := Z.of_nat (exponent_loop pcm3 16384 7) in
  let mantissa := Z.land (Z.shiftr pcm3 (exponent + 3)) 15 in
  Z.land (Z.lnot (Z.lor sign (Z.lor (Z.shiftl exponent 4) mantissa))) 255.

Definition pcmToMuLaw (pcmData : list Z) : list Z :=
  map (fun i => pcmToMuLawSample (readInt16LE pcmData (2 * Z.of_nat i)))
      (seq 0 (length pcmData / 2)).

(** The codec part of [generateTTSAudio]: resample, then compand. *)
Definition downsample_compand (pcmData : list Z) : list Z :=
  pcmToMuLaw (resample24kTo8k pcmData).

(** A sequence of 16-bit samples laid out little-endian in a buffer. *)
Definition encode_samples (s : list Z) : list Z := List.concat (map writeInt16LE s).

Definition int16 (v : Z) : Prop := -32768 <= v <= 32767.

(** The JavaScript-rounded mean of samples [3i], [3i+1] and [3i+2]. *)
Definition group_mean (s : list Z) (i : nat) : Z :=
  round_div3 (nth (3 * i) s 0 + nth (3 * i + 1) s 0 + nth (3 * i + 2) s 0).

(** From the specification's words: the last group of a buffer whose length
    is not a multiple of 3, completed by repeating its last sample. *)
Definition spec_edge_mean (s : list Z) : Z :=
  let k := (3 * (length s / 3))%nat in
  let x j := nth (Nat.min j (length s - 1)) s 0 in
  round_div3 (x k + x (k + 1)%nat + x (k + 2)%nat).

(** The standard mu-law encoder, written from the specification's words:
    sign and magnitude, clip to 32635, add the bias 0x84, exponent from the
    highest set bit above bit 7, 4-bit mantissa, all bits inverted. *)
Definition mulaw_standard (pcm : Z) : Z :=
  let sign := if pcm <? 0 then 128 else 0 in
  let mag := Z.min (Z.abs pcm) 32635 + 132 in
  let exponent := Z.max 0 (Z.log2 mag - 7) in
  let mantissa := (mag / 2 ^ (exponent + 3)) mod 16 in
  255 - (sign + 16 * exponent + mantissa).

End Codec.

(** ** JavaScript helpers shared by the modules below *)
Module JS.

(** JavaScript truthiness of an optional string ([undefined] or [""] is falsy). *)
Definition truthy_str (o : option string) : bool :=
  match o with
  | Some (String _ _) => true
  | _ => false
  end.

(** JavaScript truthiness of an optional number ([undefined] or [0] is falsy). *)
Definition truthy_num (o : option Z) : bool :=
  match o with
  | Some n => negb (n =? 0)
  | None => false
  end.

Definition is_digit (c : ascii) : bool :=
  let n := nat_of_ascii c in (48 <=? n)%nat && (n <=? 57)%nat.

Definition digit_val (c : ascii) : Z := Z.of_nat (nat_of_ascii c) - 48.

(** Leading decimal digits of a string, with the value read so far. *)
Fixpoint digits_prefix (s : string) (acc : Z) (seen : bool) : option Z :=
  match s with
  | String c s' =>
      if is_digit c then digits_prefix s' (10 * acc + digit_val c) true
      else if seen then Some acc else None
  | EmptyString => if seen then Some acc else None
  end.

(** JavaScript white space and line terminators among the code units
    0..255 a [string] holds (read as Latin-1): tab, line feed, vertical
    tab, form feed, carriage return, space and no-break space. *)
Definition is_js_space (c : ascii) : bool :=
  let n := nat_of_ascii c in
  (n =? 32)%nat || (n =? 9)%nat || (n =? 10)%nat || (n =? 11)%nat
  || (n =? 12)%nat || (n =? 13)%nat || (n =? 160)%nat.

Fixpoint trim_start (s : string) : string :=
  match s with
  | String c s' => if is_js_space c then trim_start s' else s
  | EmptyString => EmptyString
  end.

(** [parseInt(s, 10)]: leading white space, an optional sign, then the
    longest run of decimal digits; [None] stands for [NaN]. *)
Definition parseInt10 (s0 : string) : option Z :=
  match trim_start s0 with
  | String "-" s => option_map Z.opp (digits_prefix s 0 false)
  | String "+" s => digits_prefix s 0 false
  | s => digits_prefix s 0 false
  end.

(** [s.includes(sub)] *)
Fixpoint includes (s sub : string) : bool :=
  String.prefix sub s ||
  match s with
  | String _ s' => includes s' sub
  | EmptyString => false
  end.

Definition lower_ascii (c : ascii) : ascii :=
  let n := nat_of_ascii c in
  if (65 <=? n)%nat && (n <=? 90)%nat then ascii_of_nat (n + 32) else c.

(** [s.toLowerCase()] on the ASCII range. *)
Fixpoint toLowerCase (s : string) : string :=
  match s with
  | String c s' => String (lower_ascii c) (toLowerCase s')
  | EmptyString => EmptyString
  end.

(** [s.split(sep)] for a one-character separator. *)
Fixpoint split_char (sep : ascii) (s : string) : list string :=
  match s with
  | EmptyString => [EmptyString]
  | String c s' =>
      match split_char sep s' with
      | [] => [EmptyString]
      | w :: ws => if Ascii.eqb c sep then EmptyString :: w :: ws
                   else String c w :: ws
      end
  end.

Fixpoint join (sep : string) (l : list string) : string :=
  match l with
  | [] => EmptyString
  | [w] => w
  | w :: ws => w ++ sep ++ join sep ws
  end.

(** [xs.slice(-2)] *)
Definition slice_last2 {A} (xs : list A) : list A :=
  skipn (length xs - 2) xs.

Definition nl : string := String (ascii_of_nat 10) EmptyString.

(** A double quote. *)
Definition dq : string := String (ascii_of_nat 34) EmptyString.

End JS.

(** ** IEEE 754 binary64, the JavaScript number *)
Module F64.

Definition prec : Z := 53.
Definition emax : Z := 1024.

(** An integer as a double (rounded to nearest, ties to even). *)
Definition of_Z (a : Z) : spec_float := binary_normalize prec emax a 0 false.

Definition add : spec_float -> spec_float -> spec_float := SFadd prec emax.
Definition mul : spec_float -> spec_float -> spec_float := SFmul prec emax.

(** [x < y] and [x <= y]; both are false when either side is [NaN]. *)
Definition ltb (x y : spec_float) : bool := SFltb x y.
Definition leb (x y : spec_float) : bool := SFleb x y.

End F64.

Module JSNumber.
(** The value of the digit [c] in base [radix] (2, 8, 10 or 16), if any. *)
Definition digit_value (radix : Z) (c : ascii) : option Z :=
  let n := Z.of_nat (nat_of_ascii c) in
  let v := if (48 <=? n) && (n <=? 57) then n - 48
           else if (97 <=? n) && (n <=? 102) then n - 87
           else if (65 <=? n) && (n <=? 70) then n - 55
           else radix in
  if v <? radix then Some v else None.

(** The longest run of base-[radix] digits at the head of [l]: the value
    accumulated onto [acc], the number of digits read, and the rest. *)
Fixpoint digits (radix : Z) (l : list ascii) (acc : Z) (count : nat) : Z * nat * list ascii :=
  match l with
  | c :: l' =>
      match digit_value radix c with
      | Some v => digits radix l' (radix * acc + v) (S count)
      | None => (acc, count, l)
      end
  | [] => (acc, count, [])
  end.

Fixpoint drop_space (l : list ascii) : list ascii :=
  match l with
  | c :: l' => if JS.is_js_space c then drop_space l' else l
  | [] => []
  end.

(** [String.prototype.trim] on Latin-1 code units. *)
Definition trim (l : list ascii) : list ascii := rev (drop_space (rev (drop_space l))).

(** A StrUnsignedDecimalLiteral: [Infinity], or digits with an optional
    fraction and exponent; the mantissa digits as one integer [n] and the
    decimal exponent [k] of the value [n * 10^k]. *)
Inductive Unsigned := UInfinity | UDecimal (n k : Z).

Definition parse_exponent (l : list ascii) : option Z :=
  let '(neg, l1) :=
    match l with
    | c :: l' => if Ascii.eqb c "+" then (false, l')
                 else if Ascii.eqb c "-" then (true, l') else (false, l)
    | [] => (false, l)
    end in
  match digits 10 l1 0 0 with
  | (v, S _, []) => Some (if neg then - v else v)
  | _ => None
  end.

Definition parse_unsigned (l : list ascii) : option Unsigned :=
  if String.eqb (string_of_list_ascii l) "Infinity" then Some UInfinity else
  let '(n1, c1, l1) := digits 10 l 0 0 in
  let '(n2, c2, l2) :=
    match l1 with
    | c :: l' => if Ascii.eqb c "." then digits 10 l' n1 0 else (n1, 0%nat, l1)
    | [] => (n1, 0%nat, l1)
    end in
  if (c1 + c2 =? 0)%nat then None else
  match l2 with
  | [] => Some (UDecimal n2 (- Z.of_nat c2))
  | c :: l' =>
      if Ascii.eqb c "e" || Ascii.eqb c "E" then
        match parse_exponent l' with
        | Some x => Some (UDecimal n2 (x - Z.of_nat c2))
        | None => None
        end
      else None
  end.

(** [n * 10^k] rounded to the nearest double, ties to even, with sign [neg]. *)
Definition round_decimal (neg : bool) (n k : Z) : spec_float :=
  if n =? 0 then S754_zero neg
  else if 0 <=? k then binary_normalize F64.prec F64.emax (if neg then - (n * 10 ^ k) else n * 10 ^ k) 0 false
  else
    let '(q, e, loc) := SFdiv_core_binary F64.prec F64.emax n 0 (10 ^ (- k)) 0 in
    binary_round_aux F64.prec F64.emax neg q e loc.

Definition unsigned_value (neg : bool) (u : Unsigned) : spec_float :=
  match u with
  | UInfinity => S754_infinity neg
  | UDecimal n k => round_decimal neg n k
  end.

(** [0x], [0o] or [0b] literals: the prefix's radix. *)
Definition radix_prefix (c : ascii) : option Z :=
  if Ascii.eqb c "x" || Ascii.eqb c "X" then Some 16
  else if Ascii.eqb c "o" || Ascii.eqb c "O" then Some 8
  else if Ascii.eqb c "b" || Ascii.eqb c "B" then Some 2
  else None.

(** [Number(s)] (StringToNumber): trim white space; the empty string is
    [+0]; then a [0x]/[0o]/[0b] integer or a signed decimal literal that
    must span the whole rest, else [NaN]. *)
Definition js_Number (s : string) : spec_float :=
  let l := trim (list_ascii_of_string s) in
  match l with
  | [] => S754_zero false
  | c0 :: c1 :: rest =>
      if Ascii.eqb c0 "0" then
        match radix_prefix c1 with
        | Some r =>
            match digits r rest 0 0 with
            | (v, S _, []) => binary_normalize F64.prec F64.emax v 0 false
            | _ => S754_nan
            end
        | None => match parse_unsigned l with Some u => unsigned_value false u | None => S754_nan end
        end
      else if Ascii.eqb c0 "-" then
        match parse_unsigned (c1 :: rest) with Some u => unsigned_value true u | None => S754_nan end
      else if Ascii.eqb c0 "+" then
        match parse_unsigned (c1 :: rest) with Some u => unsigned_value false u | None => S754_nan end
      else match parse_unsigned l with Some u => unsigned_value false u | None => S754_nan end
  | [c0] => match parse_unsigned l with Some u => unsigned_value false u | None => S754_nan end
  end.
End JSNumber.

(** ** Webhook security (webhook-security.ts) *)
Module Security.

(** Strings compared by [charCodeAt] are lists of UTF-16 code units. *)
Definition charCodeAt (s : list Z) (i : nat) : Z :=
  (* out of range [charCodeAt] is NaN, which [^] converts to 0 *)
  nth i s 0.

(** The comparison loop of [validateWebSocketToken]: it walks the whole
    expected token and returns the accumulated [result] together with the
    number of iterations it ran. *)
Fixpoint compare_loop (expected : list Z) (received : list Z) (i : nat)
    (result : Z) : Z * nat :=
  match expected with
  | [] => (result, O)
  | e :: expected' =>
      let result' := Z.lor result (Z.lxor e (charCodeAt received i)) in
      let '(r, n) := compare_loop expected' received (S i) result' in
      (r, S n)
  end.

(** [validateWebSocketToken(expectedToken, receivedToken)]; [None] is an
    [undefined] token. *)
Definition validateWebSocketToken (expectedToken : list Z)
    (receivedToken : option (list Z)) : bool :=
  match receivedToken with
  | None => false
  | Some [] => false                       (* [!receivedToken] for "" *)
  | Some received =>
      if negb (length expectedToken =? length received)%nat then false
      else fst (compare_loop expectedToken received 0 0) =? 0
  end.

(** [crypto.verify(null, payload, formatEd25519PublicKey(publicKey),
    Buffer.from(signature, 'base64'))], a thrown error counting as [false]
    as the surrounding [try]/[catch] does. *)
Class Ed25519 := { ed25519_verify : string -> string -> string -> bool }.

Definition five_minutes : Z := 5 * 60 * 1000.

(** [validateTelnyxSignature(publicKey, signature, timestamp, body)] at
    local time [now] (ms). *)
Definition validateTelnyxSignature `{Ed25519} (now : Z) (publicKey : string)
    (signature timestamp : option string) (body : string) : bool :=
  if negb (JS.truthy_str signature) || negb (JS.truthy_str timestamp) then false
  else
    let ts := default EmptyString timestamp in
    let sg := default EmptyString signature in
    let in_window :=
      match JS.parseInt10 ts with
      | Some t => negb (Z.abs (now - t * 1000) >? five_minutes)
      | None => true   (* NaN: the comparison [> fiveMinutes] is false *)
      end in
    if negb in_window then false
    else ed25519_verify publicKey (ts ++ "|" ++ body) sg.

End Security.

(** ** Call manager (tts-openai.ts: CallManager) *)
Module CallManager.

(** The fields of [CallState] that the handlers below read or write; the
    media socket is represented by whether it is open. *)
Record CallState := {
  callControlId : option string;
  wsOpen : bool;
  streamSid : option string;
  streamingReady : bool;
  wsToken : string;
  conversationHistory : list (string * string);
  hungUp : bool
}.

(** Effects on the outside world, in the order they happen. *)
Inductive Effect :=
| SttConnected (callId : string)
| SttClosed (callId : string)
| Dialled (to_ : string)
| StartStreaming (callControlId : string)
| WsClosed (callId : string)
| AudioSent (callId : string) (bytes : nat).

Record CMState := {
  activeCalls : gmap string CallState;
  callControlIdToCallId : gmap string string;
  wsTokenToCallId : gmap string string;
  effects : list Effect
}.

Definition set_activeCalls (m : gmap string CallState) (st : CMState) : CMState :=
  {| activeCalls := m; callControlIdToCallId := callControlIdToCallId st;
     wsTokenToCallId := wsTokenToCallId st; effects := effects st |}.
Definition set_ccid (m : gmap string string) (st : CMState) : CMState :=
  {| activeCalls := activeCalls st; callControlIdToCallId := m;
     wsTokenToCallId := wsTokenToCallId st; effects := effects st |}.
Definition set_tokens (m : gmap string string) (st : CMState) : CMState :=
  {| activeCalls := activeCalls st; callControlIdToCallId := callControlIdToCallId st;
     wsTokenToCallId := m; effects := effects st |}.
Definition emit (e : Effect) (st : CMState) : CMState :=
  {| activeCalls := activeCalls st; callControlIdToCallId := callControlIdToCallId st;
     wsTokenToCallId := wsTokenToCallId st; effects := effects st ++ [e] |}.

Definition with_hungUp (c : CallState) : CallState :=
  {| callControlId := callControlId c; wsOpen := false; streamSid := streamSid c;
     streamingReady := streamingReady c; wsToken := wsToken c;
     conversationHistory := conversationHistory c; hungUp := true |}.
Definition with_ready (c : CallState) : CallState :=
  {| callControlId := callControlId c; wsOpen := wsOpen c; streamSid := streamSid c;
     streamingReady := true; wsToken := wsToken c;
     conversationHistory := conversationHistory c; hungUp := hungUp c |}.
Definition with_ccid (ccid : string) (c : CallState) : CallState :=
  {| callControlId := Some ccid; wsOpen := wsOpen c; streamSid := streamSid c;
     streamingReady := streamingReady c; wsToken := wsToken c;
     conversationHistory := conversationHistory c; hungUp := hungUp c |}.
Definition with_history (h : list (string * string)) (c : CallState) : CallState :=
  {| callControlId := callControlId c; wsOpen := wsOpen c; streamSid := streamSid c;
     streamingReady := streamingReady c; wsToken := wsToken c;
     conversationHistory := h; hungUp := hungUp c |}.

(** *** Webhooks *)

(** The fields of a parsed Telnyx webhook body that [handleTelnyxWebhook]
    reads: [data.event_type] and [data.payload.call_control_id]. *)
Record TelnyxEvent := { event_type : option string; call_control_id : option string }.

(** [JSON.parse] of a webhook body; [None] when it throws. *)
Class WebhookJson := { parse_webhook : string -> option TelnyxEvent }.

Definition handleTelnyxWebhook (ev : TelnyxEvent) (st : CMState) : CMState :=
  match call_control_id ev with
  | Some (String _ _ as ccid) =>
      match event_type ev with
      | Some "call.answered" => emit (StartStreaming ccid) st
      | Some "call.hangup" =>
          match callControlIdToCallId st !! ccid with
          | Some (String _ _ as callId) =>
              let st1 := set_ccid (delete ccid (callControlIdToCallId st)) st in
              match activeCalls st1 !! callId with
              | Some c => emit (WsClosed callId)
                            (set_activeCalls (<[callId := with_hungUp c]> (activeCalls st1)) st1)
              | None => st1
              end
          | _ => st
          end
      | Some "streaming.started" =>
          match callControlIdToCallId st !! ccid with
          | Some (String _ _ as callId) =>
              match activeCalls st !! callId with
              | Some c => set_activeCalls (<[callId := with_ready c]> (activeCalls st)) st
              | None => st
              end
          | _ => st
          end
      | _ => st
      end
  | _ => st   (* [if (!callControlId) return] *)
  end.

Record Request := {
  content_type : string;
  sig_header : option string;        (* telnyx-signature-ed25519 *)
  timestamp_header : option string;  (* telnyx-timestamp *)
  body : string
}.

Inductive Log := LogError (msg : string) | LogWarn (msg : string).

(** [handlePhoneWebhook] once the body has been read: the status code
    written, the log lines, and the call-manager state afterwards.
    [telnyxPublicKey] is [config.providerConfig.telnyxPublicKey]. *)
Definition handlePhoneWebhook `{Security.Ed25519} `{WebhookJson} (now : Z)
    (telnyxPublicKey : option string) (req : Request) (st : CMState)
    : Z * list Log * CMState :=
  if JS.includes (content_type req) "application/json" then
    let checked :=
      if JS.truthy_str telnyxPublicKey then
        if Security.validateTelnyxSignature now (default EmptyString telnyxPublicKey)
             (sig_header req) (timestamp_header req) (body req)
        then inr []
        else inl (LogError "[CallManager] Rejecting webhook: invalid signature")
      else inr [LogWarn "[CallManager] Warning: Telnyx public key not set, skipping signature verification"] in
    match checked with
    | inl e => (401, [e], st)
    | inr logs =>
        match parse_webhook (body req) with
        | None => (400, logs ++ [LogError "[CallManager] Error parsing webhook:"], st)
        | Some ev => (200, logs, handleTelnyxWebhook ev st)
        end
    end
  else (400, [LogError "[CallManager] Unknown content type:"], st).

(** *** [initiateCall]: a state and error monad over [CMState] *)

Inductive CallError :=
| ConnectionTimeout   (* 'WebSocket connection timeout' *)
| HungUpError         (* 'Call was hung up by user' *)
| ProviderError       (* the phone provider's [initiateCall] rejected *)
| TtsError            (* the synthesis promise rejected *)
| TranscriptTimeout.  (* the speech session's [waitForTranscript] rejected *)

Inductive Outcome (A : Type) := Ok (a : A) | Err (e : CallError).
Arguments Ok {A} a.
Arguments Err {A} e.

Definition M (A : Type) : Type := CMState -> Outcome A * CMState.

Definition ret {A} (a : A) : M A := fun st => (Ok a, st).
Definition throw {A} (e : CallError) : M A := fun st => (Err e, st).
Definition bind {A B} (m : M A) (k : A -> M B) : M B :=
  fun st => match m st with
            | (Ok a, st') => k a st'
            | (Err e, st') => (Err e, st')
            end.
Definition modify (f : CMState -> CMState) : M unit := fun st => (Ok tt, f st).
Definition try_catch {A} (m : M A) (handler : CallError -> M A) : M A :=
  fun st => match m st with
            | (Ok a, st') => (Ok a, st')
            | (Err e, st') => handler e st'
            end.

Notation "'let*' x ':=' m 'in' k" := (bind m (fun x => k))
  (at level 200, x name, m at level 100, k at level 200).

(** Updates the shared [CallState] object of [callId], when it is still in
    [activeCalls]. *)
Definition update_call (callId : string) (f : CallState -> CallState) : M unit :=
  modify (fun st => set_activeCalls (alter f callId (activeCalls st)) st).

(** What one iteration of the [waitForConnection] loop observes: the
    elapsed time tested by the loop condition and the fields of the call's
    state read in the body (the socket and stream are set concurrently by
    the webhook and socket handlers). *)
Record Poll := {
  p_elapsed : Z;
  p_ws_open : bool;
  p_stream_sid : bool;
  p_streaming_ready : bool
}.

Definition poll_ready (p : Poll) : bool :=
  p_ws_open p && (p_stream_sid p || p_streaming_ready p).

(** [waitForConnection(callId, timeout)] over the successive observations;
    when they run out, the loop condition has become false. *)
Fixpoint waitForConnection (polls : list Poll) (timeout : Z) : M unit :=
  match polls with
  | [] => throw ConnectionTimeout
  | p :: ps =>
      if p_elapsed p <? timeout then
        if poll_ready p then ret tt else waitForConnection ps timeout
      else throw ConnectionTimeout
  end.

(** Which of the two promises raced in [listen] settles first. *)
Inductive Race :=
| RaceTranscript (transcript : string)   (* [waitForTranscript] resolved *)
| RaceHangup                             (* [waitForHangup] rejected *)
| RaceSttTimeout.                        (* [waitForTranscript] rejected *)

(** The outcomes of the calls [initiateCall] makes to its collaborators. *)
Record CallEnv := {
  env_dial : option string;     (* phone.initiateCall: the call control id *)
  env_polls : list Poll;
  env_tts : option (list Z);    (* generateTTSAudio: the mu-law audio *)
  env_race : Race;
  env_hungUp_after_race : bool  (* [state.hungUp] when the race settles *)
}.

Definition listen (env : CallEnv) : M string :=
  match env_race env with
  | RaceTranscript t => if env_hungUp_after_race env then throw HungUpError else ret t
  | RaceHangup => throw HungUpError
  | RaceSttTimeout => throw TranscriptTimeout
  end.

Definition new_call_state (wsToken : string) : CallState :=
  {| callControlId := None; wsOpen := false; streamSid := None;
     streamingReady := false; wsToken := wsToken;
     conversationHistory := []; hungUp := false |}.

Definition connection_timeout_ms : Z := 15000.

(** [initiateCall(message)] for the fresh call id [callId] and the token
    [wsToken] produced by [generateWebSocketToken]. *)
Definition initiateCall (env : CallEnv) (userPhoneNumber callId wsToken message : string)
    : M (string * string) :=
  let* _ := modify (emit (SttConnected callId)) in
  let* _ := modify (fun st =>
    set_activeCalls (<[callId := new_call_state wsToken]> (activeCalls st)) st) in
  try_catch
    (let* _ := modify (emit (Dialled userPhoneNumber)) in
     let* ccid := match env_dial env with Some c => ret c | None => throw ProviderError end in
     let* _ := update_call callId (with_ccid ccid) in
     let* _ := modify (fun st => set_ccid (<[ccid := callId]> (callControlIdToCallId st)) st) in
     let* _ := modify (fun st => set_tokens (<[wsToken := callId]> (wsTokenToCallId st)) st) in
     let* _ := waitForConnection (env_polls env) connection_timeout_ms in
     let* audio := match env_tts env with Some a => ret a | None => throw TtsError end in
     let* _ := modify (emit (AudioSent callId (length audio))) in
     let* response := listen env in
     let* _ := update_call callId (fun c => with_history
       (conversationHistory c ++ [("claude", message); ("user", response)]) c) in
     ret (callId, response))
    (fun e =>
       let* _ := modify (emit (SttClosed callId)) in
       let* _ := modify (fun st => set_activeCalls (delete callId (activeCalls st)) st) in
       throw e).

End CallManager.

(** ** Session tracker (session-tracker.ts) *)
Module SessionTracker.

Record TmuxContext := { session : string; window : string; pane : string }.

Record SessionMapping := {
  m_callId : string;
  m_tmuxContext : TmuxContext;
  m_eventId : string;
  m_cwd : string;
  m_project : string;
  m_startedAt : Z;
  m_eventType : string;
  m_eventContent : option string
}.

Record Tracker := {
  callToSession : gmap string SessionMapping;
  sessionToCall : gmap string string
}.

Definition empty_tracker : Tracker := {| callToSession := ∅; sessionToCall := ∅ |}.

(** [getSessionKey]: [`${session}:${window}:${pane}`] *)
Definition getSessionKey (c : TmuxContext) : string :=
  session c ++ ":" ++ window c ++ ":" ++ pane c.

(** [cwd.split('/').slice(-2).join('/')] *)
Definition project_of (cwd : string) : string :=
  JS.join "/" (JS.slice_last2 (JS.split_char "/" cwd)).

(** [registerCall(...)] at time [now] ([Date.now()]). *)
Definition registerCall (now : Z) (callId : string) (tmuxContext : TmuxContext)
    (eventId cwd eventType : string) (eventContent : option string) (t : Tracker) : Tracker :=
  let sessionKey := getSessionKey tmuxContext in
  let mapping := {| m_callId := callId; m_tmuxContext := tmuxContext; m_eventId := eventId;
                    m_cwd := cwd; m_project := project_of cwd; m_startedAt := now;
                    m_eventType := eventType; m_eventContent := eventContent |} in
  {| callToSession := <[callId := mapping]> (callToSession t);
     sessionToCall := <[sessionKey := callId]> (sessionToCall t) |}.

Definition getMapping (callId : string) (t : Tracker) : option SessionMapping :=
  callToSession t !! callId.

(** [getCallIdForSession]: [this.sessionToCall.get(key) || null]. *)
Definition getCallIdForSession (c : TmuxContext) (t : Tracker) : option string :=
  match sessionToCall t !! getSessionKey c with
  | Some (String _ _ as id) => Some id
  | _ => None
  end.

Definition hasActiveCall (c : TmuxContext) (t : Tracker) : bool :=
  bool_decide (is_Some (sessionToCall t !! getSessionKey c)).

Definition removeCall (callId : string) (t : Tracker) : Tracker :=
  match callToSession t !! callId with
  | Some mapping =>
      {| callToSession := delete callId (callToSession t);
         sessionToCall := delete (getSessionKey (m_tmuxContext mapping)) (sessionToCall t) |}
  | None => t
  end.

(** The two maps agree: each mapping is indexed under its target's key,
    and each key points to a call whose mapping has that key. *)
Definition consistent (t : Tracker) : Prop :=
  (forall callId m, callToSession t !! callId = Some m ->
     m_callId m = callId /\ sessionToCall t !! getSessionKey (m_tmuxContext m) = Some callId) /\
  (forall key callId, sessionToCall t !! key = Some callId ->
     exists m, callToSession t !! callId = Some m /\ getSessionKey (m_tmuxContext m) = key).

Fixpoint has_colon (s : string) : bool :=
  match s with
  | EmptyString => false
  | String c s' => Ascii.eqb c ":" || has_colon s'
  end.

(** tmux does not allow ':' in session names, and pane ids are numbers. *)
Definition colon_free_target (c : TmuxContext) : Prop :=
  has_colon (session c) = false /\ has_colon (pane c) = false.

End SessionTracker.

(** ** Escalation evaluator (escalation/config.ts: EscalationEvaluator) *)
Module Escalation.

(** [IncomingEvent.event_type]; events arrive as JSON, so other strings can
    reach [isEventTypeEligible] at run time. *)
Inductive EventType :=
| PermissionPrompt | AskUserQuestion | IdlePrompt | OtherEvent (name : string).

Definition event_type_name (e : EventType) : string :=
  match e with
  | PermissionPrompt => "permission_prompt"
  | AskUserQuestion => "AskUserQuestion"
  | IdlePrompt => "idle_prompt"
  | OtherEvent n => n
  end.

Record IncomingEvent := { event_type : EventType; cwd : string }.

Record EscalationTriggers := {
  notificationTimeoutSeconds : Z;
  alwaysCallPatterns : list string;
  escalatePermissions : bool;
  escalateQuestions : bool;
  escalateOnIdle : bool;
  useLlmForEscalation : bool;
  llmEscalationPrompt : option string
}.

(** The timezone is only passed to [Intl.DateTimeFormat]; its output, the
    local hour and minute, is an input of [isQuietHours] below. *)
Record QuietHoursConfig := { qh_enabled : bool; qh_start : string; qh_end : string }.

Record RateLimitingConfig := { minCallIntervalSeconds : Z; maxCallsPerHour : Z }.

Record CallEscalationConfig := {
  enabled : bool;
  triggers : EscalationTriggers;
  quietHours : QuietHoursConfig;
  rateLimiting : RateLimitingConfig
}.

Record EscalationContext := {
  event : IncomingEvent;
  eventContent : string;
  notificationSentAt : option Z;
  previousCallAt : option Z;
  callCountLastHour : Z
}.

(** The [reason] strings of [EscalationResult], by template. *)
Inductive Reason :=
| RDisabled                      (* 'Call escalation is disabled' *)
| RNotEligible (e : EventType)   (* `Event type ${e} not configured for escalation` *)
| RQuietHours                    (* 'Currently in quiet hours' *)
| RRateWait (waitSeconds : Z)    (* `Rate limit: must wait ${waitSeconds}s before next call` *)
| RRateMax (maxCalls : Z)        (* `Rate limit: max ${maxCalls} calls/hour reached` *)
| RAllowed                       (* '' *)
| RAlwaysCall                    (* 'Matches always-call pattern' *)
| RNotificationPending           (* 'Notification timeout not yet elapsed' *)
| RLlmUnavailable                (* 'LLM provider not available' *)
| RLlm (reason : string)         (* `LLM: ${reason}` *)
| RLlmFailed                     (* 'LLM evaluation failed' *)
| RTimeoutElapsed.               (* 'Notification timeout elapsed' *)

Record EscalationResult := {
  shouldEscalate : bool;
  reason : Reason;
  delayMs : option Z;
  skipNotification : option bool
}.

Definition result (b : bool) (r : Reason) : EscalationResult :=
  {| shouldEscalate := b; reason := r; delayMs := None; skipNotification := None |}.

(** [new RegExp(pattern, 'i')] ([None] when it throws) and [RegExp.test]. *)
Class RegexEngine := {
  regex : Type;
  compile_i : string -> option regex;
  regex_test : regex -> string -> bool
}.

(** [JSON.parse] ([None] when it throws), then reading [parsed.shouldCall
    === true] and [parsed.reason] (a truthy reason as a string); the read
    is [None] when it throws (for [null]). *)
Class JsonEngine := {
  json : Type;
  json_parse : string -> option json;
  json_decision : json -> option (bool * option string)
}.

Record LLMRequest := {
  promptType : string;
  content : string;
  context_project : string;
  context_cwd : string
}.

(** [llmProvider.analyze(request)]: [None] when the promise rejects, else
    the [response] field of the reply ([None] when undefined). *)
Definition LLMProvider := LLMRequest -> option (option string).

Record EscalationEvaluator `{RegexEngine} := {
  config : CallEscalationConfig;
  llmProvider : option LLMProvider;
  compiledAlwaysCallPatterns : list regex
}.
Arguments EscalationEvaluator {_}.

Fixpoint compile_all `{RegexEngine} (ps : list string) : option (list regex) :=
  match ps with
  | [] => Some []
  | p :: ps' =>
      match compile_i p, compile_all ps' with
      | Some r, Some rs => Some (r :: rs)
      | _, _ => None
      end
  end.

(** The constructor; [None] when [new RegExp] throws for some pattern. *)
Definition constructor `{RegexEngine} (cfg : CallEscalationConfig)
    (llm : option LLMProvider) : option EscalationEvaluator :=
  match compile_all (alwaysCallPatterns (triggers cfg)) with
  | Some rs => Some {| config := cfg; llmProvider := llm; compiledAlwaysCallPatterns := rs |}
  | None => None
  end.

Definition isEventTypeEligible (cfg : CallEscalationConfig) (e : EventType) : bool :=
  match e with
  | PermissionPrompt => escalatePermissions (triggers cfg)
  | AskUserQuestion => escalateQuestions (triggers cfg)
  | IdlePrompt => escalateOnIdle (triggers cfg)
  | OtherEvent _ => false
  end.

(** [const [h, m] = s.split(':').map(Number); h * 60 + m]; without a
    [':'] the minute is [undefined] and the sum is [NaN]. *)
Definition parse_minutes (s : string) : spec_float :=
  match JS.split_char ":" s with
  | h :: m :: _ => F64.add (F64.mul (JSNumber.js_Number h) (F64.of_Z 60)) (JSNumber.js_Number m)
  | _ => S754_nan
  end.

(** The window test of [isQuietHours] on minutes of the day, as doubles. *)
Definition in_quiet_window (startMinutes endMinutes currentMinutes : spec_float) : bool :=
  if F64.ltb endMinutes startMinutes
  then F64.leb startMinutes currentMinutes || F64.ltb currentMinutes endMinutes
  else F64.leb startMinutes currentMinutes && F64.ltb currentMinutes endMinutes.

(** [isQuietHours()]; [local] is the hour and minute read with [parseInt]
    from the parts [Intl.DateTimeFormat] gives for now in the configured
    timezone ([None] when it throws). *)
Definition isQuietHours (cfg : CallEscalationConfig) (local : option (Z * Z)) : bool :=
  if negb (qh_enabled (quietHours cfg)) then false
  else
    match local with
    | None => false
    | Some (hour, minute) =>
        let currentMinutes := F64.add (F64.mul (F64.of_Z hour) (F64.of_Z 60)) (F64.of_Z minute) in
        in_quiet_window (parse_minutes (qh_start (quietHours cfg)))
                        (parse_minutes (qh_end (quietHours cfg))) currentMinutes
    end.

(** [Math.ceil(x / y)] for integers, [y > 0]. *)
Definition ceil_div (x y : Z) : Z := - ((- x) / y).

(** [checkRateLimits(context)] at time [now] ([Date.now()]). *)
Definition checkRateLimits (cfg : CallEscalationConfig) (ctx : EscalationContext) (now : Z)
    : bool * Reason :=
  let minInterval := minCallIntervalSeconds (rateLimiting cfg) * 1000 in
  let elapsed := now - default 0 (previousCallAt ctx) in
  if JS.truthy_num (previousCallAt ctx) && (elapsed <? minInterval) then
    (false, RRateWait (ceil_div (minInterval - elapsed) 1000))
  else if callCountLastHour ctx >=? maxCallsPerHour (rateLimiting cfg) then
    (false, RRateMax (maxCallsPerHour (rateLimiting cfg)))
  else (true, RAllowed).

Definition matchesAlwaysCallPatterns `{RegexEngine} (ev : EscalationEvaluator)
    (s : string) : bool :=
  existsb (fun r => regex_test r s) (compiledAlwaysCallPatterns ev).

(** [cwd.split('/').slice(-2).join('/')] *)
Definition project_label (cwd : string) : string :=
  JS.join "/" (JS.slice_last2 (JS.split_char "/" cwd)).

Fixpoint drop_to_open_brace (s : string) : option string :=
  match s with
  | EmptyString => None
  | String c s' => if Ascii.eqb c "{" then Some s else drop_to_open_brace s'
  end.

(** The prefix of [s] that ends with its last ['}']. *)
Fixpoint upto_last_close_brace (s : string) : option string :=
  match s with
  | EmptyString => None
  | String c s' =>
      match upto_last_close_brace s' with
      | Some p => Some (String c p)
      | None => if Ascii.eqb c "}" then Some (String c EmptyString) else None
      end
  end.

(** [s.match(/\{[\s\S]*\}/)]: from the first ['{'] to the last ['}'] after it. *)
Definition json_match (s : string) : option string :=
  match drop_to_open_brace s with
  | Some (String c rest) =>
      match upto_last_close_brace rest with
      | Some p => Some (String c p)
      | None => None
      end
  | _ => None
  end.

Definition keyword_decision (responseText : string) : bool :=
  JS.includes responseText "yes" || JS.includes responseText "call"
  || JS.includes responseText "true".

Definition llm_request (cfg : CallEscalationConfig) (ctx : EscalationContext) : LLMRequest :=
  let prompt := default EmptyString (llmEscalationPrompt (triggers cfg)) in
  let project := project_label (cwd (event ctx)) in
  {| promptType := "question";
     content := prompt ++ JS.nl ++ JS.nl ++ "Event type: " ++ event_type_name (event_type (event ctx))
                ++ JS.nl ++ "Project: " ++ project ++ JS.nl ++ "Content: " ++ eventContent ctx;
     context_project := project;
     context_cwd := cwd (event ctx) |}.

(** The parsing of the judge's reply in [evaluateWithLLM]. *)
Definition parse_llm_reply `{JsonEngine} (resp : option string) : bool * string :=
  let responseText := JS.toLowerCase (default EmptyString resp) in
  match resp with
  | None => (false, "LLM decision")
  | Some r =>
      match json_match r with
      | None => (false, "LLM decision")
      | Some m =>
          match json_parse m with
          | None => (keyword_decision responseText, "LLM decision")
          | Some j =>
              match json_decision j with
              | None => (keyword_decision responseText, "LLM decision")
              | Some (b, rsn) => (b, default "LLM decision" rsn)
              end
          end
      end
  end.

Definition evaluateWithLLM `{RegexEngine} `{JsonEngine} (ev : EscalationEvaluator)
    (ctx : EscalationContext) : EscalationResult :=
  match llmProvider ev with
  | None => result false RLlmUnavailable
  | Some analyze =>
      match analyze (llm_request (config ev) ctx) with
      | None => result false RLlmFailed
      | Some resp =>
          let '(shouldCall, rsn) := parse_llm_reply resp in
          result shouldCall (RLlm rsn)
      end
  end.

(** [evaluate(context)] at time [now] with local time [local]. *)
Definition evaluate `{RegexEngine} `{JsonEngine} (ev : EscalationEvaluator)
    (ctx : EscalationContext) (now : Z) (local : option (Z * Z)) : EscalationResult :=
  let cfg := config ev in
  if negb (enabled cfg) then result false RDisabled
  else if negb (isEventTypeEligible cfg (event_type (event ctx))) then
    result false (RNotEligible (event_type (event ctx)))
  else if isQuietHours cfg local then result false RQuietHours
  else
    let '(allowed, rsn) := checkRateLimits cfg ctx now in
    if negb allowed then result false rsn
    else if matchesAlwaysCallPatterns ev (eventContent ctx) then
      {| shouldEscalate := true; reason := RAlwaysCall; delayMs := None;
         skipNotification := Some true |}
    else
      let elapsed := now - default 0 (notificationSentAt ctx) in
      let timeoutMs := notificationTimeoutSeconds (triggers cfg) * 1000 in
      if JS.truthy_num (notificationSentAt ctx) && (elapsed <? timeoutMs) then
        {| shouldEscalate := false; reason := RNotificationPending;
           delayMs := Some (timeoutMs - elapsed); skipNotification := None |}
      else if useLlmForEscalation (triggers cfg) && bool_decide (is_Some (llmProvider ev)) then
        evaluateWithLLM ev ctx
      else result true RTimeoutElapsed.

(** [defaultCallEscalationConfig] (fields read by the evaluator). *)
Definition defaultCallEscalationConfig : CallEscalationConfig := {|
  enabled := false;
  triggers := {|
    notificationTimeoutSeconds := 120;
    alwaysCallPatterns := ["error.*critical"; "failed.*production"; "security.*vulnerability"];
    escalatePermissions := true;
    escalateQuestions := false;
    escalateOnIdle := false;
    useLlmForEscalation := true;
    llmEscalationPrompt := Some ("Decide if this Claude Code event warrants calling the user on the phone." ++ JS.nl
      ++ "Call for: critical errors, blocked situations, important decisions." ++ JS.nl
      ++ "Don't call for: simple confirmations, routine questions, minor issues." ++ JS.nl
      ++ "Respond with JSON: {" ++ JS.dq ++ "shouldCall" ++ JS.dq ++ ": true/false, "
      ++ JS.dq ++ "reason" ++ JS.dq ++ ": " ++ JS.dq ++ "..." ++ JS.dq ++ "}")%string
  |};
  quietHours := {| qh_enabled := true; qh_start := "22:00"; qh_end := "08:00" |};
  rateLimiting := {| minCallIntervalSeconds := 300; maxCallsPerHour := 3 |}
|}.

(** *** Call history (call-service.ts: pruneCallHistory, getCallCountLastHour) *)

Definition one_hour_ms : Z := 60 * 60 * 1000.

Definition pruneCallHistory (now : Z) (callHistory : list Z) : list Z :=
  List.filter (fun t => t >? now - one_hour_ms) callHistory.

(** The count returned and the history kept afterwards. *)
Definition getCallCountLastHour (now : Z) (callHistory : list Z) : Z * list Z :=
  let pruned := pruneCallHistory now callHistory in
  (Z.of_nat (length pruned), pruned).

End Escalation.

(** ** A regular-expression engine for a fragment of JavaScript [RegExp]

    Literal characters, [.], [\] escapes of punctuation, groups [( )],
    alternation [|] and the quantifiers [*], [+], [?] (optionally lazy), with
    the [i] flag on ASCII letters. As in JavaScript, an unterminated group, an
    unmatched [)] or a quantifier with nothing to repeat is a syntax error.
    Constructs outside the fragment ([[ ]], [{ }], [^], [$], [(?], letter
    escapes) are not accepted either. [test] is decided with Brzozowski
    derivatives. *)
Module MiniRegex.

Inductive re :=
| Empty | Eps | Chr (c : ascii) | AnyNoNL | All | Cat (a b : re) | Alt (a b : re) | Star (a : re).

Definition cat (a b : re) : re :=
  match a, b with
  | Empty, _ | _, Empty => Empty
  | Eps, _ => b
  | _, Eps => a
  | _, _ => Cat a b
  end.

Definition alt (a b : re) : re :=
  match a, b with
  | Empty, _ => b
  | _, Empty => a
  | _, _ => Alt a b
  end.

Fixpoint nullable (r : re) : bool :=
  match r with
  | Empty | Chr _ | AnyNoNL | All => false
  | Eps | Star _ => true
  | Cat a b => nullable a && nullable b
  | Alt a b => nullable a || nullable b
  end.

Definition is_line_terminator (c : ascii) : bool :=
  Ascii.eqb c (ascii_of_nat 10) || Ascii.eqb c (ascii_of_nat 13).

Fixpoint deriv (c : ascii) (r : re) : re :=
  match r with
  | Empty | Eps => Empty
  | Chr d => if Ascii.eqb c d then Eps else Empty
  | AnyNoNL => if is_line_terminator c then Empty else Eps
  | All => Eps
  | Cat a b => alt (cat (deriv c a) b) (if nullable a then deriv c b else Empty)
  | Alt a b => alt (deriv c a) (deriv c b)
  | Star a => cat (deriv c a) (Star a)
  end.

Fixpoint matches (r : re) (s : string) : bool :=
  match s with
  | EmptyString => nullable r
  | String c s' => matches (deriv c r) s'
  end.

Definition is_quantifier (c : ascii) : bool :=
  Ascii.eqb c "*" || Ascii.eqb c "+" || Ascii.eqb c "?".

Definition outside_fragment (c : ascii) : bool :=
  Ascii.eqb c "[" || Ascii.eqb c "]" || Ascii.eqb c "{" || Ascii.eqb c "}"
  || Ascii.eqb c "^" || Ascii.eqb c "$".

Definition is_alnum (c : ascii) : bool :=
  let n := nat_of_ascii c in
  ((48 <=? n)%nat && (n <=? 57)%nat) || ((65 <=? n)%nat && (n <=? 90)%nat)
  || ((97 <=? n)%nat && (n <=? 122)%nat).

Definition skip_lazy (s : string) : string :=
  match s with
  | String "?" s' => s'
  | _ => s
  end.

Fixpoint parse_alt (fuel : nat) (s : string) : option (re * string) :=
  match fuel with
  | O => None
  | S f =>
      match parse_seq f s with
      | Some (r1, String "|" s2) =>
          match parse_alt f s2 with
          | Some (r2, s3) => Some (Alt r1 r2, s3)
          | None => None
          end
      | res => res
      end
  end
with parse_seq (fuel : nat) (s : string) : option (re * string) :=
  match fuel with
  | O => None
  | S f =>
      match s with
      | EmptyString => Some (Eps, s)
      | String ")" _ | String "|" _ => Some (Eps, s)
      | _ =>
          match parse_atom f s with
          | Some (a, s1) =>
              let '(a', s1') :=
                match s1 with
                | String "*" s2 => (Star a, skip_lazy s2)
                | String "+" s2 => (Cat a (Star a), skip_lazy s2)
                | String "?" s2 => (Alt a Eps, skip_lazy s2)
                | _ => (a, s1)
                end in
              match parse_seq f s1' with
              | Some (rest, s3) => Some (Cat a' rest, s3)
              | None => None
              end
          | None => None
          end
      end
  end
with parse_atom (fuel : nat) (s : string) : option (re * string) :=
  match fuel with
  | O => None
  | S f =>
      match s with
      | String "(" s1 =>
          match s1 with
          | String "?" _ => None
          | _ =>
              match parse_alt f s1 with
              | Some (r, String ")" s2) => Some (r, s2)
              | _ => None
              end
          end
      | String "." s1 => Some (AnyNoNL, s1)
      | String "\" (String c s1) =>
          if is_alnum c then None else Some (Chr c, s1)
      | String c s1 =>
          if is_quantifier c || outside_fragment c || Ascii.eqb c "\" then None
          else Some (Chr (JS.lower_ascii c), s1)
      | EmptyString => None
      end
  end.

(** [new RegExp(pattern, 'i')] *)
Definition compile (pattern : string) : option re :=
  match parse_alt (4 * String.length pattern + 8) pattern with
  | Some (r, EmptyString) => Some r
  | _ => None
  end.

(** [regex.test(s)]: some substring of [s] matches. *)
Definition test (r : re) (s : string) : bool :=
  matches (Cat (Star All) (Cat r (Star All))) (JS.toLowerCase s).

#[export] Instance engine : Escalation.RegexEngine :=
  {| Escalation.regex := re; Escalation.compile_i := compile; Escalation.regex_test := test |}.

End MiniRegex.

(** ** Concrete configurations, collaborators and inputs *)
Module Examples.
Import Escalation.

(** [{ ...cfg, enabled: true }] *)
Definition with_enabled (cfg : CallEscalationConfig) : CallEscalationConfig :=
  {| enabled := true; triggers := triggers cfg; quietHours := quietHours cfg;
     rateLimiting := rateLimiting cfg |}.

(** [cfg] with [triggers.alwaysCallPatterns] replaced by [ps]. *)
Definition with_patterns (cfg : CallEscalationConfig) (ps : list string) : CallEscalationConfig :=
  let t := triggers cfg in
  {| enabled := enabled cfg;
     triggers := {| notificationTimeoutSeconds := notificationTimeoutSeconds t;
                    alwaysCallPatterns := ps;
                    escalatePermissions := escalatePermissions t;
                    escalateQuestions := escalateQuestions t;
                    escalateOnIdle := escalateOnIdle t;
                    useLlmForEscalation := useLlmForEscalation t;
                    llmEscalationPrompt := llmEscalationPrompt t |};
     quietHours := quietHours cfg; rateLimiting := rateLimiting cfg |}.

(** A [JSON.parse] that rejects every text. *)
#[export] Instance json_never : JsonEngine :=
  {| json := unit; json_parse := fun _ => None; json_decision := fun _ => None |}.

Definition judge_reply : string := "Yes, call the user.".

(** A judge whose reply carries no JSON object. *)
Definition judge : LLMProvider := fun _ => Some (Some judge_reply).

Definition question_ctx : EscalationContext :=
  {| event := {| event_type := AskUserQuestion; cwd := "/home/u/proj" |};
     eventContent := "Which option?"; notificationSentAt := None;
     previousCallAt := Some 1000000; callCountLastHour := 1 |}.

Definition permission_ctx : EscalationContext :=
  {| event := {| event_type := PermissionPrompt; cwd := "/home/u/proj" |};
     eventContent := "Allow edit?"; notificationSentAt := None;
     previousCallAt := Some 1000000; callCountLastHour := 1 |}.

Definition delete_production_ctx : EscalationContext :=
  {| event := {| event_type := PermissionPrompt; cwd := "/home/u/proj" |};
     eventContent := "delete production database"; notificationSentAt := Some 1190000;
     previousCallAt := None; callCountLastHour := 0 |}.

(** A verifier that rejects every signature, and a body parser that
    rejects every body. *)
#[export] Instance ed25519_reject : Security.Ed25519 :=
  {| Security.ed25519_verify := fun _ _ _ => false |}.

#[export] Instance webhook_json_none : CallManager.WebhookJson :=
  {| CallManager.parse_webhook := fun _ => None |}.

Definition empty_cm : CallManager.CMState :=
  {| CallManager.activeCalls := ∅; CallManager.callControlIdToCallId := ∅;
     CallManager.wsTokenToCallId := ∅; CallManager.effects := [] |}.

Definition unsigned_request (content_type : string) : CallManager.Request :=
  {| CallManager.content_type := content_type; CallManager.sig_header := None;
     CallManager.timestamp_header := None; CallManager.body := "{}" |}.

Definition idle_poll : CallManager.Poll :=
  {| CallManager.p_elapsed := 0; CallManager.p_ws_open := false;
     CallManager.p_stream_sid := false; CallManager.p_streaming_ready := false |}.

Definition ready_poll : CallManager.Poll :=
  {| CallManager.p_elapsed := 2000; CallManager.p_ws_open := true;
     CallManager.p_stream_sid := true; CallManager.p_streaming_ready := true |}.

(** The socket never opens. *)
Definition env_never_ready : CallManager.CallEnv :=
  {| CallManager.env_dial := Some "cc-1"; CallManager.env_polls := [idle_poll];
     CallManager.env_tts := Some [255; 255]; CallManager.env_race := CallManager.RaceHangup;
     CallManager.env_hungUp_after_race := false |}.

(** The socket opens, then the user hangs up before speaking. *)
Definition env_hangup : CallManager.CallEnv :=
  {| CallManager.env_dial := Some "cc-1"; CallManager.env_polls := [idle_poll; ready_poll];
     CallManager.env_tts := Some [255; 255]; CallManager.env_race := CallManager.RaceHangup;
     CallManager.env_hungUp_after_race := false |}.

Definition target (s w p : string) : SessionTracker.TmuxContext :=
  {| SessionTracker.session := s; SessionTracker.window := w; SessionTracker.pane := p |}.

End Examples.

(** ** Audio delivery (tts-openai.ts: [synthesizeStream], [sendAudio],
    [sendPreGeneratedAudio], [speakStreaming]). A frame sent is a frame
    handed to [sendMediaChunk]; the 20 ms pauses are left out. *)

Module Streaming.
Import Codec.

(** [buf.subarray(b, e)] on a Node [Buffer]: the bytes from [b] up to
    [e], both clamped to the length. *)
Definition subarray (buf : list Z) (b e : nat) : list Z := firstn (e - b) (skipn b buf).

(** [for (let i = 0; i < buf.length; i += size) ... buf.subarray(i, i + size)]:
    the pieces handed out in order, one per loop iteration ([fuel] bounds
    the iterations). *)
Fixpoint chunk_loop (fuel size : nat) (buf : list Z) (i : nat) : list (list Z) :=
  match fuel with
  | O => []
  | S f => if (i <? length buf)%nat
           then subarray buf i (i + size) :: chunk_loop f size buf (i + size)
           else []
  end.

Definition chunk_by (size : nat) (buf : list Z) : list (list Z) :=
  chunk_loop (length buf) size buf 0.

(** A list of frames of [size] bytes, the last one possibly shorter but
    never empty. *)
Definition chunked (size : nat) (l : list (list Z)) : Prop :=
  Forall (fun c => length c = size) (removelast l) /\
  Forall (fun c => (0 < length c <= size)%nat) l.

(** [speakStreaming]: [OUTPUT_CHUNK_SIZE] *)
Definition OUTPUT_CHUNK_SIZE : nat := 160.

(** [sendAudio(state, pcmData)]: the frames it hands to [sendMediaChunk],
    in order. *)
Definition sendAudio (pcmData : list Z) : list (list Z) :=
  let muLawData := pcmToMuLaw (resample24kTo8k pcmData) in
  let chunkSize := 160%nat in
  chunk_loop (length muLawData) chunkSize muLawData 0.

(** [sendPreGeneratedAudio(state, muLawData)]: the frames it hands to
    [sendMediaChunk], in order. *)
Definition sendPreGeneratedAudio (muLawData : list Z) : list (list Z) :=
  let chunkSize := 160%nat in
  chunk_loop (length muLawData) chunkSize muLawData 0.

(** The loop of [synthesizeStream]:
    [yield fullAudio.subarray(i, Math.min(i + chunkSize, fullAudio.length))]. *)
Fixpoint synth_loop (fuel chunkSize : nat) (fullAudio : list Z) (i : nat) : list (list Z) :=
  match fuel with
  | O => []
  | S f => if (i <? length fullAudio)%nat
           then subarray fullAudio i (Nat.min (i + chunkSize) (length fullAudio))
                  :: synth_loop f chunkSize fullAudio (i + chunkSize)
           else []
  end.

(** [synthesizeStream(text)] (tts-openai.ts) once [synthesize(text)] has
    returned [fullAudio]: the pieces it yields. *)
Definition synthesizeStream (fullAudio : list Z) : list (list Z) :=
  let chunkSize := 8192%nat in
  synth_loop (length fullAudio) chunkSize fullAudio 0.

(** The local state of [speakStreaming]: the two pending buffers, the
    [playbackStarted] flag, and the frames handed to [sendMediaChunk] so far. *)
Record StreamState := {
  pendingPcm : list Z;
  pendingMuLaw : list Z;
  playbackStarted : bool;
  sent : list (list Z)
}.

(** The loop of [drainBuffer]:
    [while (pendingMuLaw.length >= OUTPUT_CHUNK_SIZE) { send; pendingMuLaw = pendingMuLaw.subarray(OUTPUT_CHUNK_SIZE) }]. *)
Fixpoint drain_loop (fuel : nat) (mu : list Z) (out : list (list Z)) : list Z * list (list Z) :=
  match fuel with
  | O => (mu, out)
  | S f =>
      if (OUTPUT_CHUNK_SIZE <=? length mu)%nat
      then drain_loop f (skipn OUTPUT_CHUNK_SIZE mu) (out ++ [subarray mu 0 OUTPUT_CHUNK_SIZE])
      else (mu, out)
  end.

(** [drainBuffer()] *)
Definition drainBuffer (st : StreamState) : StreamState :=
  let '(mu, out) := drain_loop (length (pendingMuLaw st)) (pendingMuLaw st) (sent st) in
  {| pendingPcm := pendingPcm st; pendingMuLaw := mu;
     playbackStarted := playbackStarted st; sent := out |}.

(** One iteration of [for await (const chunk of synthesizeStream(text))]
    with [SAMPLES_PER_RESAMPLE = 6] and [JITTER_BUFFER_SIZE = 800]. *)
Definition stream_step (st : StreamState) (chunk : list Z) : StreamState :=
  let pcm := pendingPcm st ++ chunk in
  let completeUnits := (length pcm / 6)%nat in
  if (0 <? completeUnits)%nat then
    let bytesToProcess := (completeUnits * 6)%nat in
    let toProcess := subarray pcm 0 bytesToProcess in
    let pcm' := skipn bytesToProcess pcm in
    let muLaw := pcmToMuLaw (resample24kTo8k toProcess) in
    let mu := pendingMuLaw st ++ muLaw in
    if negb (playbackStarted st) && (length mu <? 800)%nat
    then {| pendingPcm := pcm'; pendingMuLaw := mu;
            playbackStarted := playbackStarted st; sent := sent st |}
    else drainBuffer {| pendingPcm := pcm'; pendingMuLaw := mu;
                        playbackStarted := true; sent := sent st |}
  else {| pendingPcm := pcm; pendingMuLaw := pendingMuLaw st;
          playbackStarted := playbackStarted st; sent := sent st |}.

(** The state at entry: empty buffers, playback not started. *)
Definition stream_init : StreamState :=
  {| pendingPcm := []; pendingMuLaw := []; playbackStarted := false; sent := [] |}.

(** [speakStreaming(state, text, synthesizeStream)] fed with the chunks
    [chunks]: the final [drainBuffer()] and the flush of what is left. *)
Definition speakStreaming (chunks : list (list Z)) : list (list Z) :=
  let st := drainBuffer (fold_left stream_step chunks stream_init) in
  if (0 <? length (pendingMuLaw st))%nat then sent st ++ [pendingMuLaw st] else sent st.

End Streaming.

(** ** Media-socket upgrade and call teardown (tts-openai.ts) *)

Module CallLifecycle.
Import CallManager.

(** The UTF-16 code units of an ASCII string, as [Buffer.from(s)] gives
    them to [validateWebSocketToken]. *)
Definition code_units (s : string) : list Z :=
  map (fun a => Z.of_nat (nat_of_ascii a)) (list_ascii_of_string s).

(** The outcome of the ['upgrade'] handler on [/media-stream]: the
    socket is accepted for a call id, accepted for a [pending-...]
    placeholder, or refused with [401]. *)
Inductive UpgradeResult := Accept (callId : string) | AcceptPending | Reject.

(** The ['upgrade'] handler of [startServer] (tts-openai.ts) for the path
    [/media-stream]; [token] is [url.searchParams.get('token')],
    [isNgrokFreeTier] the test on the public host name and [activeCallIds]
    [Array.from(this.activeCalls.keys())]. *)
Definition upgrade (isNgrokFreeTier : bool) (activeCallIds : list string)
    (token : option string) (st : CMState) : UpgradeResult :=
  let callId := if JS.truthy_str token
                then wsTokenToCallId st !! default EmptyString token else None in
  if JS.truthy_str token && JS.truthy_str callId then
    match activeCalls st !! default EmptyString callId with
    | Some state =>
        if Security.validateWebSocketToken (code_units (wsToken state)) (option_map code_units token)
        then Accept (default EmptyString callId) else Reject
    | None => Reject
    end
  else if negb (JS.truthy_str callId) then
    if isNgrokFreeTier then
      match last activeCallIds with
      | Some c => Accept c
      | None => AcceptPending
      end
    else Reject
  else Accept (default EmptyString callId).

(** The errors [endCall] throws: no active call, or the failure of
    [speak] or of [phone.hangup]. *)
Inductive EndCallError := NoActiveCall | SpeakFailed | HangupFailed.

(** [CallManager.endCall(callId, message)]: [speak_ok] and [hangup_ok]
    say whether [speak] and [phone.hangup] succeed; the returned duration
    is left out. *)
Definition endCall (speak_ok hangup_ok : bool) (callId : string) (st : CMState)
    : option EndCallError * CMState :=
  match activeCalls st !! callId with
  | None => (Some NoActiveCall, st)
  | Some state =>
      if negb speak_ok then (Some SpeakFailed, st)
      else if JS.truthy_str (callControlId state) && negb hangup_ok then (Some HangupFailed, st)
      else
        let st1 := emit (WsClosed callId) (emit (SttClosed callId) st) in
        let st2 := set_activeCalls (<[callId := with_hungUp state]> (activeCalls st1)) st1 in
        let st3 := set_tokens (delete (wsToken state) (wsTokenToCallId st2)) st2 in
        let st4 := if JS.truthy_str (callControlId state)
                   then set_ccid (delete (default EmptyString (callControlId state))
                                         (callControlIdToCallId st3)) st3
                   else st3 in
        (None, set_activeCalls (delete callId (activeCalls st4)) st4)
  end.

End CallLifecycle.

(** ** The call service (call-service.ts) *)

Module CallService.
Import CallManager.

(** The fields of [CallService] these methods use ([callManager] is
    [None] before [start()]). *)
Record Service := {
  callManager : option CMState;
  tracker : SessionTracker.Tracker;
  lastCallAt : option Z;
  callHistory : list Z
}.

(** The fields of [IncomingEvent] used here. *)
Record Event := {
  ev_tmux : SessionTracker.TmuxContext;
  ev_cwd : string;
  ev_event_type : string
}.

(** The errors the methods throw or pass on. *)
Inductive ServiceError :=
| NotStarted
| SessionBusy (existingCallId : option string)
| ManagerError (e : CallError)
| EndError (e : CallLifecycle.EndCallError).

(** The service with its call manager replaced. *)
Definition set_manager (cm : CMState) (svc : Service) : Service :=
  {| callManager := Some cm; tracker := tracker svc; lastCallAt := lastCallAt svc;
     callHistory := callHistory svc |}.

(** [CallService.initiateCall(event, eventId, message)] at time [now];
    [eventContent] is [extractEventContent(event)], [callId] and [wsToken]
    the identifiers [CallManager.initiateCall] draws. *)
Definition initiateCall (env : CallEnv) (userPhoneNumber callId wsToken : string) (now : Z)
    (ev : Event) (eventId message eventContent : string) (svc : Service)
    : (ServiceError + string * string) * Service :=
  match callManager svc with
  | None => (inl NotStarted, svc)
  | Some cm =>
      if SessionTracker.hasActiveCall (ev_tmux ev) (tracker svc) then
        (inl (SessionBusy (SessionTracker.getCallIdForSession (ev_tmux ev) (tracker svc))), svc)
      else
        match CallManager.initiateCall env userPhoneNumber callId wsToken message cm with
        | (Err e, cm') => (inl (ManagerError e), set_manager cm' svc)
        | (Ok (cid, response), cm') =>
            let t := SessionTracker.registerCall now cid (ev_tmux ev) eventId (ev_cwd ev)
                       (ev_event_type ev) (Some eventContent) (tracker svc) in
            (inr (cid, response),
             {| callManager := Some cm'; tracker := t; lastCallAt := Some now;
                callHistory := Escalation.pruneCallHistory now (callHistory svc ++ [now]) |})
        end
  end.

(** [CallService.endCall(callId, finalResponse, goodbyeMessage)]: the
    result names the tmux target and text [tmuxResponder.sendResponse]
    receives, if any (its own failure is caught and only logged). *)
Definition endCall (speak_ok hangup_ok : bool) (callId finalResponse : string) (svc : Service)
    : (ServiceError + option (SessionTracker.TmuxContext * string)) * Service :=
  match callManager svc with
  | None => (inl NotStarted, svc)
  | Some cm =>
      let mapping := SessionTracker.getMapping callId (tracker svc) in
      match CallLifecycle.endCall speak_ok hangup_ok callId cm with
      | (Some e, cm') => (inl (EndError e), set_manager cm' svc)
      | (None, cm') =>
          let routed := match mapping with
                        | Some m => if JS.truthy_str (Some finalResponse)
                                    then Some (SessionTracker.m_tmuxContext m, finalResponse)
                                    else None
                        | None => None
                        end in
          (inr routed,
           {| callManager := Some cm'; tracker := SessionTracker.removeCall callId (tracker svc);
              lastCallAt := lastCallAt svc; callHistory := callHistory svc |})
      end
  end.

(** [CallService.handleCall(event, eventId, message, goodbyeMessage)] *)
Definition handleCall (env : CallEnv) (speak_ok hangup_ok : bool)
    (userPhoneNumber callId wsToken : string) (now : Z)
    (ev : Event) (eventId message : string) (eventContent : string) (svc : Service)
    : (ServiceError + string * option (SessionTracker.TmuxContext * string)) * Service :=
  match initiateCall env userPhoneNumber callId wsToken now ev eventId message eventContent svc with
  | (inl e, svc1) => (inl e, svc1)
  | (inr (cid, response), svc1) =>
      match endCall speak_ok hangup_ok cid response svc1 with
      | (inl e, svc2) => (inl e, svc2)
      | (inr routed, svc2) => (inr (response, routed), svc2)
      end
  end.

End CallService.

(** ** Call scripts (escalation/config.ts) *)

Module Scripts.
Local Open Scope string_scope.

(** [CallScriptsConfig] *)
Record CallScriptsConfig := {
  greeting : string;
  permissionPrompt : string;
  questionPrompt : string;
  errorPrompt : string;
  goodbye : string
}.

(** [s] without the prefix [p], if [s] starts with it. *)
Fixpoint strip_prefix (p s : string) : option string :=
  match p with
  | EmptyString => Some s
  | String c p' =>
      match s with
      | EmptyString => None
      | String d s' => if Ascii.eqb c d then strip_prefix p' s' else None
      end
  end.

(** The text before and after the first occurrence of [pat] in [s]. *)
Fixpoint split_first (pat s : string) : option (string * string) :=
  match strip_prefix pat s with
  | Some post => Some (EmptyString, post)
  | None =>
      match s with
      | EmptyString => None
      | String c s' =>
          match split_first pat s' with
          | Some (pre, post) => Some (String c pre, post)
          | None => None
          end
      end
  end.

(** The replacement string of [String.prototype.replace] with its
    patterns [$$], [$&], [$`] and [$'] expanded (GetSubstitution, no
    capture groups); any other [$] is kept. *)
Fixpoint get_substitution (matched pre post repl : string) : string :=
  match repl with
  | EmptyString => EmptyString
  | String c r =>
      if Ascii.eqb c "$" then
        match r with
        | String d r' =>
            if Ascii.eqb d "$" then String "$" (get_substitution matched pre post r')
            else if Ascii.eqb d "&" then matched ++ get_substitution matched pre post r'
            else if Ascii.eqb d "`" then pre ++ get_substitution matched pre post r'
            else if Ascii.eqb d "'" then post ++ get_substitution matched pre post r'
            else String c (get_substitution matched pre post r)
        | EmptyString => String c EmptyString
        end
      else String c (get_substitution matched pre post r)
  end.

(** [s.replace(pat, repl)] for a string [pat]: only the first occurrence
    is replaced. *)
Definition replace_first (s pat repl : string) : string :=
  match split_first pat s with
  | Some (pre, post) => pre ++ get_substitution pat pre post repl ++ post
  | None => s
  end.

(** [EscalationEvaluator.formatCallMessage(eventType, content)] with
    [this.config.callScripts = scripts] (escalation/config.ts). *)
Definition formatCallMessage (scripts : CallScriptsConfig) (eventType content : string) : string :=
  let message := greeting scripts ++ " " in
  if String.eqb eventType "permission_prompt" then
    message ++ replace_first (permissionPrompt scripts) "{action}" content
  else if String.eqb eventType "AskUserQuestion" then
    message ++ replace_first (questionPrompt scripts) "{question}" content
  else message ++ content.

End Scripts.


(** ** Session tracker queries *)

Module TrackerQueries.

(** [SessionTracker.getActiveCallCount()]: [this.callToSession.size] *)
Definition getActiveCallCount (t : SessionTracker.Tracker) : nat :=
  size (SessionTracker.callToSession t).

End TrackerQueries.

(** ** Concrete inputs for the properties below *)

Module Scenarios.
Import CallManager.

(** A call that connects at once and gets the answer "yes". *)
Definition env_ok : CallEnv :=
  {| env_dial := Some "cc-1"; env_polls := [Examples.ready_poll]; env_tts := Some [255; 255];
     env_race := RaceTranscript "yes"; env_hungUp_after_race := false |}.

Definition started_cm : CMState :=
  snd (initiateCall env_ok "+15550100" "call-1" "tok-1" "Proceed?" Examples.empty_cm).

Definition failed_cm : CMState :=
  snd (initiateCall Examples.env_never_ready "+15550100" "call-1" "tok-1" "Proceed?" Examples.empty_cm).

Definition ended_cm : CMState := snd (CallLifecycle.endCall true true "call-1" started_cm).

Definition event0 : CallService.Event :=
  {| CallService.ev_tmux := Examples.target "main" "0" "1"; CallService.ev_cwd := "/home/u/proj";
     CallService.ev_event_type := "permission_prompt" |}.

Definition service0 : CallService.Service :=
  {| CallService.callManager := Some Examples.empty_cm;
     CallService.tracker := SessionTracker.empty_tracker;
     CallService.lastCallAt := None; CallService.callHistory := [] |}.

Definition scripts0 : Scripts.CallScriptsConfig :=
  {| Scripts.greeting := "Hello.";
     Scripts.permissionPrompt := "I need permission to {action}. Should I proceed?";
     Scripts.questionPrompt := "I have a question: {question}";
     Scripts.errorPrompt := "I encountered an issue: {error}. How should I proceed?";
     Scripts.goodbye := "Talk soon!" |}.

(** Quiet hours from 09:00 to 09:00. *)
Definition same_window_cfg : Escalation.CallEscalationConfig :=
  {| Escalation.enabled := true;
     Escalation.triggers := Escalation.triggers Escalation.defaultCallEscalationConfig;
     Escalation.quietHours := {| Escalation.qh_enabled := true; Escalation.qh_start := "09:00";
                                 Escalation.qh_end := "09:00" |};
     Escalation.rateLimiting := Escalation.rateLimiting Escalation.defaultCallEscalationConfig |}.

(** Quiet hours from " 22:00" (with a leading space, which [Number()]
    trims) to 08:00. *)
Definition spaced_window_cfg : Escalation.CallEscalationConfig :=
  {| Escalation.enabled := true;
     Escalation.triggers := Escalation.triggers Escalation.defaultCallEscalationConfig;
     Escalation.quietHours := {| Escalation.qh_enabled := true; Escalation.qh_start := " 22:00";
                                 Escalation.qh_end := "08:00" |};
     Escalation.rateLimiting := Escalation.rateLimiting Escalation.defaultCallEscalationConfig |}.

(** A verifier that accepts every signature. *)
Definition ed25519_accept : Security.Ed25519 :=
  {| Security.ed25519_verify := fun _ _ _ => true |}.

End Scenarios.


(** * Properties *)

(** ** Codec *)
Module CodecFacts.
Import Codec.

Lemma forall_range_sound (f : Z -> bool) (n : nat) :
  forall lo, forall_range f lo n = true ->
  forall x, lo <= x < lo + Z.of_nat n -> f x = true.
Proof.
  induction n as [|n IH]; intros lo Hc x Hx; simpl in *; [lia|].
  destruct (f lo) eqn:Hf; [|discriminate].
  destruct (Z.eq_dec x lo) as [->|Hne]; [exact Hf|].
  apply (IH (lo + 1)); [exact Hc|lia].
Qed.

Lemma forall_range_sound_Z (f : Z -> bool) (lo n : Z) :
  0 <= n -> forall_range f lo (Z.to_nat n) = true ->
  forall x, lo <= x < lo + n -> f x = true.
Proof.
  intros Hn Hc x Hx. apply (forall_range_sound f _ lo Hc). rewrite Z2Nat.id by exact Hn. exact Hx.
Qed.

Lemma write_read_int16 v : int16 v -> readInt16LE (writeInt16LE v) 0 = v.
Proof.
  intros Hv.
  assert (H : forall_range (fun v => readInt16LE (writeInt16LE v) 0 =? v) (-32768) (Z.to_nat 65536) = true)
    by (vm_compute; reflexivity).
  apply Z.eqb_eq. apply (forall_range_sound_Z _ (-32768) 65536 ltac:(lia) H). unfold int16 in Hv. lia.
Qed.

Lemma length_encode s : length (encode_samples s) = (2 * length s)%nat.
Proof. unfold encode_samples. induction s as [|a s IH]; simpl; [done|]. rewrite IH. lia. Qed.

Lemma encode_cons a s :
  encode_samples (a :: s) = Z.land a 255 :: Z.land (Z.shiftr a 8) 255 :: encode_samples s.
Proof. reflexivity. Qed.

Lemma nth_encode_lo s i : (i < length s)%nat ->
  nth (2 * i) (encode_samples s) 0 = Z.land (nth i s 0) 255.
Proof.
  revert i; induction s as [|a s IH]; intros i Hi; simpl in Hi; [lia|].
  rewrite encode_cons. destruct i as [|i]; [reflexivity|].
  replace (2 * S i)%nat with (S (S (2 * i))) by lia. simpl nth. apply IH. lia.
Qed.

Lemma nth_encode_hi s i : (i < length s)%nat ->
  nth (2 * i + 1) (encode_samples s) 0 = Z.land (Z.shiftr (nth i s 0) 8) 255.
Proof.
  revert i; induction s as [|a s IH]; intros i Hi; simpl in Hi; [lia|].
  rewrite encode_cons. destruct i as [|i]; [reflexivity|].
  replace (2 * S i + 1)%nat with (S (S (2 * i + 1))) by lia. simpl nth. apply IH. lia.
Qed.

Lemma read_encode s i : Forall int16 s -> (i < length s)%nat ->
  readInt16LE (encode_samples s) (2 * Z.of_nat i) = nth i s 0.
Proof.
  intros Hs Hi.
  assert (Hv : int16 (nth i s 0)).
  { rewrite List.Forall_forall in Hs. apply Hs. apply nth_In. exact Hi. }
  rewrite <- (write_read_int16 _ Hv).
  unfold readInt16LE, byte_at.
  replace (Z.to_nat (2 * Z.of_nat i)) with (2 * i)%nat by lia.
  replace (Z.to_nat (2 * Z.of_nat i + 1)) with (2 * i + 1)%nat by lia.
  rewrite nth_encode_lo, nth_encode_hi by exact Hi. reflexivity.
Qed.

Lemma map_seq_nth {A} (g : Z -> A) (s : list Z) : forall (f : nat -> A) k,
  (forall i, (i < length s)%nat -> f (k + i)%nat = g (nth i s 0)) ->
  map f (seq k (length s)) = map g s.
Proof.
  induction s as [|a s IH]; intros f k Hf; [reflexivity|]. simpl.
  f_equal.
  - replace k with (k + 0)%nat at 1 by lia. apply (Hf 0%nat). simpl. lia.
  - apply IH. intros i Hi. replace (S k + i)%nat with (k + S i)%nat by lia.
    apply (Hf (S i)). simpl. lia.
Qed.

Lemma pcmToMuLaw_encode s : Forall int16 s ->
  pcmToMuLaw (encode_samples s) = map pcmToMuLawSample s.
Proof.
  intros Hs. unfold pcmToMuLaw. rewrite length_encode.
  replace (2 * length s / 2)%nat with (length s) by (rewrite Nat.mul_comm, Nat.div_mul; lia).
  apply map_seq_nth. intros i Hi. simpl. rewrite read_encode by assumption. reflexivity.
Qed.

Lemma nth_int16 s i : Forall int16 s -> int16 (nth i s 0).
Proof.
  intros Hs. destruct (Nat.lt_ge_cases i (length s)) as [Hi|Hi].
  - rewrite List.Forall_forall in Hs. apply Hs. apply nth_In. exact Hi.
  - rewrite nth_overflow by exact Hi. unfold int16. lia.
Qed.

Lemma round_div3_int16 a b c : int16 a -> int16 b -> int16 c -> int16 (round_div3 (a + b + c)).
Proof. unfold int16, round_div3. intros. Z.div_mod_to_equations. lia. Qed.

Lemma resample_encode s : Forall int16 s ->
  resample24kTo8k (encode_samples s) =
  encode_samples (map (group_mean s) (seq 0 (length s / 3))).
Proof.
  intros Hs. unfold resample24kTo8k, outputSamples, encode_samples.
  rewrite map_map. f_equal.
  fold (encode_samples s). rewrite length_encode.
  replace (Z.to_nat (Z.of_nat (2 * length s) / 6)) with (length s / 3)%nat.
  2:{ rewrite Nat2Z.inj_mul. apply Nat2Z.inj. rewrite Z2Nat.id.
      2:{ apply Z.div_pos; lia. }
      rewrite Nat2Z.inj_div. Z.div_mod_to_equations. lia. }
  apply map_ext_in. intros i Hi. apply in_seq in Hi.
  assert (H3 : (3 * i + 2 < length s)%nat).
  { destruct Hi as [_ Hi].
    pose proof (Nat.div_mod (length s) 3 ltac:(lia)). lia. }
  f_equal. unfold resample_sample, group_mean.
  rewrite length_encode.
  rewrite !Nat2Z.inj_mul. simpl Z.of_nat.
  rewrite !(proj2 (Z.ltb_lt _ _)) by lia.
  replace (Z.of_nat i * 3 * 2) with (2 * Z.of_nat (3 * i)) by lia.
  replace ((Z.of_nat i * 3 + 1) * 2) with (2 * Z.of_nat (3 * i + 1)) by lia.
  replace ((Z.of_nat i * 3 + 2) * 2) with (2 * Z.of_nat (3 * i + 2)) by lia.
  rewrite !read_encode by (assumption || lia). reflexivity.
Qed.

Lemma downsample_compand_encode s : Forall int16 s ->
  downsample_compand (encode_samples s) =
  map (fun i => pcmToMuLawSample (group_mean s i)) (seq 0 (length s / 3)).
Proof.
  intros Hs. unfold downsample_compand. rewrite resample_encode by exact Hs.
  rewrite pcmToMuLaw_encode.
  - rewrite map_map. reflexivity.
  - apply List.Forall_forall. intros x Hx. apply in_map_iff in Hx.
    destruct Hx as [i [<- _]]. unfold group_mean.
    apply round_div3_int16; apply nth_int16; exact Hs.
Qed.

(** Claim C1: for every 16-bit sample, [pcmToMuLawSample] is the standard
    mu-law encoder (sign and magnitude, clip to 32635, bias 0x84, exponent
    from the highest set bit, 4-bit mantissa, bits inverted), [pcmToMuLaw]
    applies it to every sample of a buffer, and the reference values are
    0 -> 0xFF, 32767 -> 0x80 and -32768 -> 0x00. *)
Theorem pcmToMuLawSample_standard :
  (forall pcm, int16 pcm -> pcmToMuLawSample pcm = mulaw_standard pcm)
  /\ (forall s, Forall int16 s -> pcmToMuLaw (encode_samples s) = map mulaw_standard s)
  /\ pcmToMuLawSample 0 = 255 /\ pcmToMuLawSample 32767 = 128
  /\ pcmToMuLawSample (-32768) = 0.
Proof.
  assert (Hall : forall pcm, int16 pcm -> pcmToMuLawSample pcm = mulaw_standard pcm).
  { intros pcm Hv.
    assert (H : forall_range (fun v => pcmToMuLawSample v =? mulaw_standard v)
                  (-32768) (Z.to_nat 65536) = true) by (vm_compute; reflexivity).
    apply Z.eqb_eq. apply (forall_range_sound_Z _ (-32768) 65536 ltac:(lia) H).
    unfold int16 in Hv. lia. }
  split; [exact Hall|]. split; [|repeat split; reflexivity].
  intros s Hs. rewrite pcmToMuLaw_encode by exact Hs.
  apply map_ext_in. intros a Ha. apply Hall.
  rewrite List.Forall_forall in Hs. apply Hs. exact Ha.
Qed.

Lemma pcmToMuLawSample_standard_witness :
  int16 (-1000) /\ pcmToMuLawSample (-1000) = mulaw_standard (-1000)
  /\ pcmToMuLaw (encode_samples [0; -1000]) = map mulaw_standard [0; -1000].
Proof.
  assert (H1 : int16 (-1000)) by (unfold int16; lia).
  split; [exact H1|]. split.
  - exact (proj1 pcmToMuLawSample_standard (-1000) H1).
  - apply (proj1 (proj2 pcmToMuLawSample_standard)).
    repeat constructor; unfold int16; lia.
Defined.

(** The pipeline on a buffer of [n] 16-bit samples: the mu-law codes of
    the rounded means of the [floor(n/3)] full groups of three. *)
Lemma downsample_compand_groups (s : list Z) :
  Forall int16 s ->
  downsample_compand (encode_samples s) =
    map (fun i => pcmToMuLawSample (group_mean s i)) (seq 0 (length s / 3))
  /\ length (downsample_compand (encode_samples s)) = (length s / 3)%nat.
Proof.
  intros Hs. rewrite downsample_compand_encode by exact Hs.
  split; [reflexivity|]. rewrite length_map, length_seq. reflexivity.
Qed.

(** Claim C7 (code bug): [resample24kTo8k] tests whether samples [3i+1]
    and [3i+2] exist and otherwise reuses the last one read, the edge rule
    of the specification; but its loop runs only for
    [i < Math.floor(inputSamples / 3)], where both samples always exist, so
    both fallbacks are dead and the trailing [n mod 3] samples are dropped.
    For every buffer of [n] 16-bit samples the output is the [floor(n/3)]
    codes of the rounded means of full groups; for the samples
    [0; 0; 0; 30000] it is the one code of the first group, and the code of
    the last group completed with its last sample never appears. *)
Theorem resample_edge_fallback_dead :
  (forall pcm i, 0 <= i < outputSamples pcm ->
     2 * (i * 3 + 1) < Z.of_nat (length pcm) /\ 2 * (i * 3 + 2) < Z.of_nat (length pcm))
  /\ (forall s, Forall int16 s ->
       downsample_compand (encode_samples s) =
         map (fun i => pcmToMuLawSample (group_mean s i)) (seq 0 (length s / 3))
       /\ length (downsample_compand (encode_samples s)) = (length s / 3)%nat)
  /\ downsample_compand (encode_samples [0; 0; 0; 30000]) = [pcmToMuLawSample 0]
  /\ pcmToMuLawSample (spec_edge_mean [0; 0; 0; 30000]) <> pcmToMuLawSample 0.
Proof.
  split; [|split; [|split]].
  - intros pcm i Hi. unfold outputSamples in Hi.
    pose proof (Z.mul_div_le (Z.of_nat (length pcm)) 6 ltac:(lia)). lia.
  - exact downsample_compand_groups.
  - vm_compute. reflexivity.
  - vm_compute. discriminate.
Qed.

Lemma resample_edge_fallback_dead_witness :
  Forall int16 [0; 0; 0; 30000]
  /\ downsample_compand (encode_samples [0; 0; 0; 30000]) = [pcmToMuLawSample (group_mean [0; 0; 0; 30000] 0)].
Proof.
  assert (Hs : Forall int16 [0; 0; 0; 30000]) by (repeat constructor; unfold int16; lia).
  split; [exact Hs|].
  exact (proj1 (proj1 (proj2 resample_edge_fallback_dead) [0; 0; 0; 30000] Hs)).
Defined.

End CodecFacts.

(** ** Webhook and media-socket security *)
Module SecurityFacts.
Import Security.

Lemma compare_loop_iterations e r : forall i acc, snd (compare_loop e r i acc) = length e.
Proof.
  induction e as [|a e IH]; intros i acc; simpl; [reflexivity|].
  specialize (IH (S i) (Z.lor acc (Z.lxor a (charCodeAt r i)))).
  destruct (compare_loop e r (S i) _). simpl in *. lia.
Qed.

Lemma compare_loop_zero e r : forall i acc,
  fst (compare_loop e r i acc) = 0 <->
  acc = 0 /\ forall k, (k < length e)%nat -> nth k e 0 = charCodeAt r (i + k).
Proof.
  induction e as [|a e IH]; intros i acc; simpl.
  - split; [intros ->; split; [reflexivity| intros; lia] | intros [-> _]; reflexivity].
  - pose proof (IH (S i) (Z.lor acc (Z.lxor a (charCodeAt r i)))) as IHi.
    destruct (compare_loop e r (S i) _) as [res n]. simpl in *. rewrite IHi.
    rewrite Z.lor_eq_0_iff, Z.lxor_eq_0_iff. split.
    + intros [[Hacc Ha] Hk]. split; [exact Hacc|]. intros [|k] Hlt.
      * rewrite Nat.add_0_r. exact Ha.
      * simpl. rewrite Hk by lia. f_equal. lia.
    + intros [Hacc Hk]. split; [split; [exact Hacc|]|].
      * rewrite <- (Nat.add_0_r i). apply (Hk 0%nat). lia.
      * intros k Hlt. rewrite (Hk (S k)) by lia. f_equal. lia.
Qed.

Lemma validate_iff e r :
  validateWebSocketToken e (Some r) = true <-> r <> [] /\ r = e.
Proof.
  unfold validateWebSocketToken. destruct r as [|c r'] eqn:Er.
  - split; [discriminate | intros [H _]; congruence].
  - rewrite <- Er. destruct (length e =? length r)%nat eqn:El; simpl.
    + apply Nat.eqb_eq in El. rewrite Z.eqb_eq, compare_loop_zero. split.
      * intros [_ Hk]. split; [subst; discriminate|].
        apply nth_ext with (d := 0) (d' := 0); [lia|].
        intros k Hk'. unfold charCodeAt in Hk. rewrite Hk by lia. reflexivity.
      * intros [_ ->]. split; [reflexivity|]. intros k _. reflexivity.
    + split; [discriminate|]. intros [_ ->]. rewrite Nat.eqb_refl in El. discriminate.
Qed.

(** Claim C5: [validateWebSocketToken expected received] is true exactly
    when the token is present ([!receivedToken] is false: neither missing
    nor empty) and equal to [expected] character for character; a missing
    token, a differing character or a length mismatch give false; the
    comparison loop always runs over all [length expected] positions. *)
Theorem validateWebSocketToken_spec :
  (forall expected received,
     validateWebSocketToken expected received = true <->
     exists r, received = Some r /\ r <> [] /\ length r = length expected
               /\ forall k, (k < length expected)%nat -> nth k r 0 = nth k expected 0)
  /\ (forall expected r i acc, snd (compare_loop expected r i acc) = length expected).
Proof.
  split; [|intros; apply compare_loop_iterations].
  intros e [r|].
  - rewrite validate_iff. split.
    + intros [Hne ->]. exists e. auto.
    + intros [r' [Hr [Hne [Hl Hk]]]]. inversion Hr; subst r'. split; [exact Hne|].
      apply nth_ext with (d := 0) (d' := 0); [exact Hl|]. intros k Hk'. apply Hk. lia.
  - split; [discriminate|]. intros [r [Hr _]]. discriminate.
Qed.

End SecurityFacts.

(** ** Call manager *)
Module CallManagerFacts.
Import CallManager.

Lemma validate_rejects `{Security.Ed25519} now key sg ts body :
  (JS.truthy_str sg = false \/ JS.truthy_str ts = false
   \/ (exists tss t, ts = Some tss /\ JS.parseInt10 tss = Some t /\
                     Z.abs (now - t * 1000) > Security.five_minutes)
   \/ (exists sgs tss, sg = Some sgs /\ ts = Some tss /\
                       Security.ed25519_verify key (tss ++ "|" ++ body) sgs = false)) ->
  Security.validateTelnyxSignature now key sg ts body = false.
Proof.
  unfold Security.validateTelnyxSignature.
  intros [Hs | [Ht | [[tss [t [-> [Hp Ha]]]] | [sgs [tss [-> [-> Hv]]]]]]].
  - rewrite Hs. reflexivity.
  - rewrite Ht, orb_true_r. reflexivity.
  - destruct (negb (JS.truthy_str sg) || negb (JS.truthy_str (Some tss))); [reflexivity|].
    simpl. rewrite Hp. rewrite (proj2 (Z.gtb_lt _ _)) by lia. reflexivity.
  - destruct (negb (JS.truthy_str (Some sgs)) || negb (JS.truthy_str (Some tss))); [reflexivity|].
    simpl. destruct (JS.parseInt10 tss) as [t|]; [destruct (Z.abs (now - t * 1000) >? Security.five_minutes)|];
    simpl; auto.
Qed.

Lemma webhook_rejects `{Security.Ed25519} `{WebhookJson} now key req st :
  JS.truthy_str key = true ->
  JS.includes (content_type req) "application/json" = true ->
  Security.validateTelnyxSignature now (default EmptyString key)
    (sig_header req) (timestamp_header req) (body req) = false ->
  handlePhoneWebhook now key req st =
    (401, [LogError "[CallManager] Rejecting webhook: invalid signature"], st).
Proof.
  intros Hk Hc Hv. unfold handlePhoneWebhook. rewrite Hc, Hk, Hv. reflexivity.
Qed.

Lemma webhook_no_key `{Security.Ed25519} `{WebhookJson} now key req st :
  JS.truthy_str key = false ->
  JS.includes (content_type req) "application/json" = true ->
  handlePhoneWebhook now key req st =
    let logs := [LogWarn "[CallManager] Warning: Telnyx public key not set, skipping signature verification"] in
    match parse_webhook (body req) with
    | None => (400, logs ++ [LogError "[CallManager] Error parsing webhook:"], st)
    | Some ev => (200, logs, handleTelnyxWebhook ev st)
    end.
Proof. intros Hk Hc. unfold handlePhoneWebhook. rewrite Hc, Hk. reflexivity. Qed.

Lemma waitForConnection_state ps t st : snd (waitForConnection ps t st) = st.
Proof.
  induction ps as [|p ps IH]; simpl; [reflexivity|].
  destruct (p_elapsed p <? t), (poll_ready p); simpl; auto.
Qed.

Lemma waitForConnection_timeout ps t st :
  (forall p, In p ps -> p_elapsed p < t -> poll_ready p = false) ->
  waitForConnection ps t st = (Err ConnectionTimeout, st).
Proof.
  induction ps as [|p ps IH]; intros H; simpl; [reflexivity|].
  destruct (p_elapsed p <? t) eqn:E; [|reflexivity].
  rewrite (H p (or_introl eq_refl)) by lia. apply IH. intros q Hq. apply H. right. exact Hq.
Qed.

Lemma waitForConnection_ready pre p post t st :
  (forall q, In q pre -> p_elapsed q < t /\ poll_ready q = false) ->
  p_elapsed p < t -> poll_ready p = true ->
  waitForConnection (pre ++ p :: post) t st = (Ok tt, st).
Proof.
  induction pre as [|q pre IH]; intros Hpre Hp Hr; simpl.
  - rewrite (proj2 (Z.ltb_lt _ _) Hp), Hr. reflexivity.
  - destruct (Hpre q (or_introl eq_refl)) as [Hq Hqr].
    rewrite (proj2 (Z.ltb_lt _ _) Hq), Hqr. apply IH; auto.
    intros r Hr'. apply Hpre. right. exact Hr'.
Qed.

Lemma initiateCall_timeout env user callId token msg st ccid :
  env_dial env = Some ccid ->
  (forall p, In p (env_polls env) -> p_elapsed p < connection_timeout_ms -> poll_ready p = false) ->
  let '(r, st') := initiateCall env user callId token msg st in
  r = Err ConnectionTimeout /\ activeCalls st' !! callId = None /\
  effects st' = effects st ++ [SttConnected callId; Dialled user; SttClosed callId].
Proof.
  intros Hd Hp. unfold initiateCall, bind, try_catch, modify, update_call, ret, throw.
  rewrite Hd. simpl.
  rewrite waitForConnection_timeout by exact Hp. simpl.
  split; [reflexivity|]. split.
  - apply lookup_delete_eq.
  - rewrite <- !app_assoc. reflexivity.
Qed.

Lemma initiateCall_hangup env user callId token msg st ccid audio pre p post :
  env_dial env = Some ccid ->
  env_polls env = pre ++ p :: post ->
  (forall q, In q pre -> p_elapsed q < connection_timeout_ms /\ poll_ready q = false) ->
  p_elapsed p < connection_timeout_ms -> poll_ready p = true ->
  env_tts env = Some audio ->
  (env_race env = RaceHangup \/
   exists t, env_race env = RaceTranscript t /\ env_hungUp_after_race env = true) ->
  let '(r, st') := initiateCall env user callId token msg st in
  r = Err HungUpError /\ activeCalls st' !! callId = None /\
  effects st' = effects st ++ [SttConnected callId; Dialled user;
                               AudioSent callId (length audio); SttClosed callId].
Proof.
  intros Hd Hpolls Hpre Hp Hr Ht Hrace. unfold initiateCall, bind, try_catch, modify, update_call, ret, throw.
  rewrite Hd, Hpolls. simpl.
  rewrite (waitForConnection_ready pre p post) by assumption. rewrite Ht.
  assert (Hl : forall s, listen env s = (Err HungUpError, s)).
  { intros s. unfold listen. destruct Hrace as [-> | [t [-> ->]]]; reflexivity. }
  simpl. rewrite Hl. simpl.
  split; [reflexivity|]. split.
  - apply lookup_delete_eq.
  - rewrite <- !app_assoc. reflexivity.
Qed.

(** The rejection conditions of [validateTelnyxSignature]: a missing
    signature or timestamp header, a timestamp more than five minutes from
    [now], or a failed Ed25519 verification of [timestamp|body]. *)
Definition rejected `{Security.Ed25519} (now : Z) (key : string) (req : Request) : Prop :=
  JS.truthy_str (sig_header req) = false \/ JS.truthy_str (timestamp_header req) = false
  \/ (exists tss t, timestamp_header req = Some tss /\ JS.parseInt10 tss = Some t /\
                    Z.abs (now - t * 1000) > Security.five_minutes)
  \/ (exists sgs tss, sig_header req = Some sgs /\ timestamp_header req = Some tss /\
                      Security.ed25519_verify key (tss ++ "|" ++ body req) sgs = false).

(** Claim C6 (as the code does it): a JSON webhook with a configured key
    and a missing signature or timestamp, a timestamp off by more than five
    minutes, or a failed verification is answered 401 and leaves the state
    unchanged; a request of another content type is answered 400, also
    without any change; with no key, a warning is logged and the body is
    parsed and handled. *)
Theorem handlePhoneWebhook_auth `{Security.Ed25519} `{WebhookJson} now key req st :
  (JS.includes (content_type req) "application/json" = true ->
   JS.truthy_str key = true -> rejected now (default EmptyString key) req ->
   handlePhoneWebhook now key req st =
     (401, [LogError "[CallManager] Rejecting webhook: invalid signature"], st))
  /\ (JS.includes (content_type req) "application/json" = false ->
      handlePhoneWebhook now key req st =
        (400, [LogError "[CallManager] Unknown content type:"], st))
  /\ (JS.includes (content_type req) "application/json" = true ->
      JS.truthy_str key = false ->
      handlePhoneWebhook now key req st =
        let logs := [LogWarn "[CallManager] Warning: Telnyx public key not set, skipping signature verification"] in
        match parse_webhook (body req) with
        | None => (400, logs ++ [LogError "[CallManager] Error parsing webhook:"], st)
        | Some ev => (200, logs, handleTelnyxWebhook ev st)
        end).
Proof.
  split; [|split].
  - intros Hc Hk Hr. apply webhook_rejects; [exact Hk|exact Hc|].
    apply validate_rejects. exact Hr.
  - intros Hc. unfold handlePhoneWebhook. rewrite Hc. reflexivity.
  - intros Hc Hk. apply webhook_no_key; assumption.
Qed.

#[local] Existing Instances Examples.ed25519_reject Examples.webhook_json_none.

Lemma handlePhoneWebhook_auth_witness :
  handlePhoneWebhook 0 (Some "key") (Examples.unsigned_request "application/json") Examples.empty_cm
  = (401, [LogError "[CallManager] Rejecting webhook: invalid signature"], Examples.empty_cm)
  /\ handlePhoneWebhook 0 (Some "key") (Examples.unsigned_request "text/plain") Examples.empty_cm
  = (400, [LogError "[CallManager] Unknown content type:"], Examples.empty_cm).
Proof.
  split.
  - apply (proj1 (handlePhoneWebhook_auth 0 (Some "key") (Examples.unsigned_request "application/json") Examples.empty_cm));
      [reflexivity|reflexivity|].
    left. reflexivity.
  - apply (proj1 (proj2 (handlePhoneWebhook_auth 0 (Some "key") (Examples.unsigned_request "text/plain") Examples.empty_cm))).
    reflexivity.
Defined.

(** Claim C6 (as stated): with a configured key, every webhook request
    without a signature header would be answered 401. False for a request
    of content type [text/plain]: it is answered 400. *)
Lemma handlePhoneWebhook_unsigned_cx :
  ~ (forall now key req st, JS.truthy_str key = true -> sig_header req = None ->
       fst (fst (handlePhoneWebhook now key req st)) = 401).
Proof.
  intros H.
  specialize (H 0 (Some "key") (Examples.unsigned_request "text/plain") Examples.empty_cm eq_refl eq_refl).
  vm_compute in H. discriminate.
Qed.

(** Claim C9: when the dial succeeds and the media socket is never both
    open and stream-ready within the 15 s timeout, [initiateCall] fails
    with the timeout error; when it becomes ready and the user hangs up
    before an utterance is captured, it fails with the hang-up error. On
    both paths the speech session is closed and the call is removed from
    [activeCalls] before the error reaches the caller. *)
Theorem initiateCall_failures_release env user callId token msg st ccid :
  env_dial env = Some ccid ->
  ((forall p, In p (env_polls env) -> p_elapsed p < connection_timeout_ms -> poll_ready p = false) ->
   let '(r, st') := initiateCall env user callId token msg st in
   r = Err ConnectionTimeout /\ activeCalls st' !! callId = None /\
   effects st' = effects st ++ [SttConnected callId; Dialled user; SttClosed callId])
  /\ (forall audio pre p post,
      env_polls env = pre ++ p :: post ->
      (forall q, In q pre -> p_elapsed q < connection_timeout_ms /\ poll_ready q = false) ->
      p_elapsed p < connection_timeout_ms -> poll_ready p = true ->
      env_tts env = Some audio ->
      (env_race env = RaceHangup \/
       exists t, env_race env = RaceTranscript t /\ env_hungUp_after_race env = true) ->
      let '(r, st') := initiateCall env user callId token msg st in
      r = Err HungUpError /\ activeCalls st' !! callId = None /\
      effects st' = effects st ++ [SttConnected callId; Dialled user;
                                   AudioSent callId (length audio); SttClosed callId]).
Proof.
  intros Hd. split.
  - apply initiateCall_timeout with (ccid := ccid). exact Hd.
  - intros audio pre p post. apply initiateCall_hangup with (ccid := ccid). exact Hd.
Qed.

Lemma initiateCall_failures_release_witness :
  (let '(r, st') := initiateCall Examples.env_never_ready "+15550100" "call-1" "tok" "Hi" Examples.empty_cm in
   r = Err ConnectionTimeout /\ activeCalls st' !! "call-1" = None /\
   effects st' = [SttConnected "call-1"; Dialled "+15550100"; SttClosed "call-1"])
  /\ (let '(r, st') := initiateCall Examples.env_hangup "+15550100" "call-1" "tok" "Hi" Examples.empty_cm in
      r = Err HungUpError /\ activeCalls st' !! "call-1" = None /\
      effects st' = [SttConnected "call-1"; Dialled "+15550100"; AudioSent "call-1" 2; SttClosed "call-1"]).
Proof.
  split.
  - apply (proj1 (initiateCall_failures_release Examples.env_never_ready "+15550100" "call-1" "tok" "Hi"
                    Examples.empty_cm "cc-1" eq_refl)).
    intros p [<- | []] _. reflexivity.
  - apply (proj2 (initiateCall_failures_release Examples.env_hangup "+15550100" "call-1" "tok" "Hi"
                    Examples.empty_cm "cc-1" eq_refl) [255; 255] [Examples.idle_poll] Examples.ready_poll []);
      [reflexivity| |vm_compute; reflexivity|reflexivity|reflexivity|left; reflexivity].
    intros q [<- | []]. split; [vm_compute; reflexivity|reflexivity].
Defined.

End CallManagerFacts.

(** ** Session tracker *)
Module SessionTrackerFacts.
Import SessionTracker.
Local Open Scope string_scope.

Lemma has_colon_sep a b : has_colon (a ++ String ":" b) = true.
Proof. induction a as [|c a IH]; simpl; [reflexivity|]. rewrite IH, orb_true_r. reflexivity. Qed.

Lemma sep_prefix_inj a1 a2 b1 b2 :
  has_colon a1 = false -> has_colon a2 = false ->
  a1 ++ String ":" b1 = a2 ++ String ":" b2 -> a1 = a2 /\ b1 = b2.
Proof.
  revert a2. induction a1 as [|c a1 IH]; intros [|d a2] H1 H2 Heq; simpl in *.
  - inversion Heq. auto.
  - inversion Heq; subst. simpl in H2. discriminate.
  - inversion Heq; subst. simpl in H1. discriminate.
  - apply orb_false_iff in H1 as [_ H1]. apply orb_false_iff in H2 as [_ H2].
    inversion Heq; subst. destruct (IH a2 H1 H2 H3) as [-> ->]. auto.
Qed.

Lemma sep_suffix_inj a1 a2 b1 b2 :
  has_colon b1 = false -> has_colon b2 = false ->
  a1 ++ String ":" b1 = a2 ++ String ":" b2 -> a1 = a2 /\ b1 = b2.
Proof.
  revert a2. induction a1 as [|c a1 IH]; intros [|d a2] H1 H2 Heq; simpl in *.
  - inversion Heq. auto.
  - inversion Heq; subst. rewrite has_colon_sep in H1. discriminate.
  - inversion Heq; subst. rewrite has_colon_sep in H2. discriminate.
  - inversion Heq; subst. destruct (IH a2 H1 H2 H3) as [-> ->]. auto.
Qed.

Lemma getSessionKey_inj c1 c2 :
  colon_free_target c1 -> colon_free_target c2 ->
  getSessionKey c1 = getSessionKey c2 -> c1 = c2.
Proof.
  intros [Hs1 Hp1] [Hs2 Hp2] Heq. unfold getSessionKey in Heq. simpl in Heq.
  destruct (sep_prefix_inj _ _ _ _ Hs1 Hs2 Heq) as [Hs Hrest].
  destruct (sep_suffix_inj _ _ _ _ Hp1 Hp2 Hrest) as [Hw Hp].
  destruct c1, c2; simpl in *; subst; reflexivity.
Qed.

Lemma empty_consistent : consistent empty_tracker.
Proof. split; intros ? ? Hl; vm_compute in Hl; discriminate. Qed.

Section Props.
Variable now : Z.
Variables (callId eventId cwd eventType : string) (content : option string).

Lemma register_has c t :
  hasActiveCall c (registerCall now callId c eventId cwd eventType content t) = true.
Proof. unfold hasActiveCall, registerCall. simpl. rewrite lookup_insert_eq. reflexivity. Qed.

Lemma register_get c t : callId <> EmptyString ->
  getCallIdForSession c (registerCall now callId c eventId cwd eventType content t) = Some callId.
Proof.
  intros Hne. unfold getCallIdForSession, registerCall. simpl. rewrite lookup_insert_eq.
  destruct callId; [congruence|reflexivity].
Qed.

Lemma register_other c c' t :
  getSessionKey c <> getSessionKey c' ->
  hasActiveCall c' (registerCall now callId c eventId cwd eventType content t) = hasActiveCall c' t /\
  getCallIdForSession c' (registerCall now callId c eventId cwd eventType content t) = getCallIdForSession c' t.
Proof.
  intros Hne. unfold hasActiveCall, getCallIdForSession, registerCall. simpl.
  rewrite lookup_insert_ne by exact Hne. auto.
Qed.

Lemma register_consistent c t :
  consistent t -> callToSession t !! callId = None -> hasActiveCall c t = false ->
  consistent (registerCall now callId c eventId cwd eventType content t).
Proof.
  intros [H1 H2] Hfresh Hfree. unfold hasActiveCall in Hfree.
  apply bool_decide_eq_false in Hfree. apply eq_None_not_Some in Hfree.
  unfold registerCall; split; simpl.
  - intros cid m Hm. destruct (decide (cid = callId)) as [->|Hne].
    + rewrite lookup_insert_eq in Hm. inversion Hm; subst. simpl.
      rewrite lookup_insert_eq. auto.
    + rewrite lookup_insert_ne in Hm by congruence.
      destruct (H1 _ _ Hm) as [Hid Hk]. split; [exact Hid|].
      rewrite lookup_insert_ne; [exact Hk|]. intros Heq. rewrite Heq in Hfree. congruence.
  - intros key cid Hk. destruct (decide (key = getSessionKey c)) as [->|Hne].
    + rewrite lookup_insert_eq in Hk. inversion Hk; subst.
      eexists. rewrite lookup_insert_eq. split; reflexivity.
    + rewrite lookup_insert_ne in Hk by congruence.
      destruct (H2 _ _ Hk) as [m [Hm Hkey]].
      assert (cid <> callId) by (intros ->; congruence).
      exists m. rewrite lookup_insert_ne by congruence. auto.
Qed.

Lemma remove_consistent cid t : consistent t -> consistent (removeCall cid t).
Proof.
  intros [H1 H2]. unfold removeCall. destruct (callToSession t !! cid) as [m|] eqn:Em; [|split; assumption].
  destruct (H1 _ _ Em) as [Hid Hkm]. split; simpl.
  - intros cid' m' Hm'. destruct (decide (cid' = cid)) as [->|Hne].
    + rewrite lookup_delete_eq in Hm'. discriminate.
    + rewrite lookup_delete_ne in Hm' by congruence.
      destruct (H1 _ _ Hm') as [Hid' Hk']. split; [exact Hid'|].
      rewrite lookup_delete_ne; [exact Hk'|]. intros Heq. rewrite Heq in Hkm. congruence.
  - intros key cid' Hk. destruct (decide (key = getSessionKey (m_tmuxContext m))) as [->|Hne].
    + rewrite lookup_delete_eq in Hk. discriminate.
    + rewrite lookup_delete_ne in Hk by congruence.
      destruct (H2 _ _ Hk) as [m' [Hm' Hkey]].
      assert (cid' <> cid) by (intros ->; congruence).
      exists m'. rewrite lookup_delete_ne by congruence. auto.
Qed.

Lemma remove_after_register c t :
  callToSession t !! callId = None ->
  hasActiveCall c (removeCall callId (registerCall now callId c eventId cwd eventType content t)) = false.
Proof.
  intros _. unfold removeCall, registerCall, hasActiveCall. simpl. rewrite lookup_insert_eq. simpl.
  rewrite lookup_delete_eq. reflexivity.
Qed.

Lemma remove_after_register_any c t :
  hasActiveCall c (removeCall callId (registerCall now callId c eventId cwd eventType content t)) = false.
Proof.
  unfold removeCall, registerCall, hasActiveCall. simpl. rewrite lookup_insert_eq. simpl.
  rewrite lookup_delete_eq. reflexivity.
Qed.

Lemma remove_other cid c' t m :
  callToSession t !! cid = Some m ->
  getSessionKey (m_tmuxContext m) <> getSessionKey c' ->
  hasActiveCall c' (removeCall cid t) = hasActiveCall c' t /\
  getCallIdForSession c' (removeCall cid t) = getCallIdForSession c' t.
Proof.
  intros Hm Hne. unfold removeCall, hasActiveCall, getCallIdForSession. rewrite Hm. simpl.
  rewrite lookup_delete_ne by exact Hne. auto.
Qed.
End Props.

(** Claim C8 (as the code does it): after [registerCall] for a target,
    [hasActiveCall] is true for it, and [getCallIdForSession] returns the
    call id when that id is non-empty; after [removeCall] of that id,
    [hasActiveCall] is false; for targets whose session and pane names
    contain no [':'], the answers for any other such target are unchanged
    by the register and by the remove; [removeCall] keeps a consistent
    tracker consistent, and [registerCall] does so for a call id not yet
    registered and a target with no active call. *)
Theorem tracker_register_remove now callId c eventId cwd eventType content t :
  let t1 := registerCall now callId c eventId cwd eventType content t in
  let t2 := removeCall callId t1 in
  hasActiveCall c t1 = true
  /\ (callId <> EmptyString -> getCallIdForSession c t1 = Some callId)
  /\ hasActiveCall c t2 = false
  /\ (forall c', colon_free_target c -> colon_free_target c' -> c' <> c ->
       hasActiveCall c' t1 = hasActiveCall c' t /\
       getCallIdForSession c' t1 = getCallIdForSession c' t /\
       hasActiveCall c' t2 = hasActiveCall c' t /\
       getCallIdForSession c' t2 = getCallIdForSession c' t)
  /\ (forall cid, consistent t -> consistent (removeCall cid t))
  /\ (consistent t -> callToSession t !! callId = None -> hasActiveCall c t = false ->
      consistent t1 /\ consistent t2).
Proof.
  intros t1 t2.
  assert (Hm : callToSession t1 !! callId =
               Some {| m_callId := callId; m_tmuxContext := c; m_eventId := eventId;
                       m_cwd := cwd; m_project := project_of cwd; m_startedAt := now;
                       m_eventType := eventType; m_eventContent := content |}).
  { unfold t1, registerCall. simpl. apply lookup_insert_eq. }
  split; [apply register_has|]. split; [apply register_get|].
  split; [apply remove_after_register_any|].
  split.
  - intros c' Hc Hc' Hdiff.
    assert (Hk : getSessionKey c <> getSessionKey c').
    { intros Heq. apply Hdiff. symmetry. apply getSessionKey_inj; assumption. }
    destruct (register_other now callId eventId cwd eventType content c c' t Hk) as [Ha Hg].
    destruct (remove_other callId c' t1 _ Hm Hk) as [Ha2 Hg2].
    fold t1 in Ha, Hg. fold t2 in Ha2, Hg2.
    rewrite Ha2, Hg2. auto.
  - split; [intros cid; apply remove_consistent|].
    intros Hcons Hfresh Hfree.
    assert (Hc1 : consistent t1) by (apply register_consistent; assumption).
    split; [exact Hc1|apply remove_consistent; exact Hc1].
Qed.

Lemma tracker_register_remove_witness :
  consistent empty_tracker /\ callToSession empty_tracker !! "call-1" = None
  /\ hasActiveCall (Examples.target "main" "0" "1") empty_tracker = false
  /\ consistent (registerCall 0 "call-1" (Examples.target "main" "0" "1") "ev-1" "/home/u/proj"
                  "permission_prompt" None empty_tracker)
  /\ getCallIdForSession (Examples.target "main" "0" "1")
       (registerCall 0 "call-1" (Examples.target "main" "0" "1") "ev-1" "/home/u/proj"
          "permission_prompt" None empty_tracker) = Some "call-1".
Proof.
  assert (Hcons : consistent empty_tracker) by apply empty_consistent.
  assert (Hf : callToSession empty_tracker !! "call-1" = None) by reflexivity.
  assert (Hn : hasActiveCall (Examples.target "main" "0" "1") empty_tracker = false) by reflexivity.
  destruct (tracker_register_remove 0 "call-1" (Examples.target "main" "0" "1") "ev-1" "/home/u/proj"
              "permission_prompt" None empty_tracker) as (_ & Hg & _ & _ & _ & Hr).
  split; [exact Hcons|]. split; [exact Hf|]. split; [exact Hn|].
  split; [exact (proj1 (Hr Hcons Hf Hn))|].
  apply Hg. discriminate.
Defined.

(** Claim C8 (as stated): no register ever changes the answer for a
    different target, [getCallIdForSession] always returns the registered
    id, and every register keeps the maps consistent. False three ways:
    the targets [("a:b", "c", "d")] and [("a", "b:c", "d")] share the key
    ["a:b:c:d"]; the empty call id is falsy and gives [null]; registering
    ["call-2"] for a target that already has ["call-1"], or registering
    ["call-1"] again for another target, leaves a stale entry behind. *)
Lemma tracker_targets_collide_cx :
  ~ (forall now callId c c' eventId cwd eventType content t, c <> c' ->
       hasActiveCall c' (registerCall now callId c eventId cwd eventType content t) = hasActiveCall c' t)
  /\ ~ (forall now callId c eventId cwd eventType content t,
       getCallIdForSession c (registerCall now callId c eventId cwd eventType content t) = Some callId)
  /\ ~ (forall now callId c eventId cwd eventType content t, consistent t ->
       hasActiveCall c t = false ->
       consistent (registerCall now callId c eventId cwd eventType content t))
  /\ ~ (forall now callId c eventId cwd eventType content t, consistent t ->
       callToSession t !! callId = None ->
       consistent (registerCall now callId c eventId cwd eventType content t)).
Proof.
  pose (t0 := registerCall 0 "call-1" (Examples.target "main" "0" "1") "ev-1" "/p" "permission_prompt"
                None empty_tracker).
  assert (Ht0 : consistent t0).
  { apply register_consistent; [apply empty_consistent|reflexivity|reflexivity]. }
  split; [|split; [|split]].
  - intros H.
    specialize (H 0 "call-1" (Examples.target "a:b" "c" "d") (Examples.target "a" "b:c" "d")
                  "ev-1" "/p" "permission_prompt" None empty_tracker ltac:(discriminate)).
    vm_compute in H. discriminate.
  - intros H. specialize (H 0 EmptyString (Examples.target "main" "0" "1") "ev-1" "/p"
                            "permission_prompt" None empty_tracker).
    vm_compute in H. discriminate.
  - intros H.
    specialize (H 0 "call-1" (Examples.target "main" "0" "2") "ev-2" "/p" "permission_prompt" None t0
                  Ht0 ltac:(vm_compute; reflexivity)).
    destruct H as [_ H2].
    destruct (H2 "main:0:1" "call-1" eq_refl) as [m [Hm Hkey]].
    vm_compute in Hm. injection Hm as <-. vm_compute in Hkey. discriminate.
  - intros H.
    specialize (H 0 "call-2" (Examples.target "main" "0" "1") "ev-2" "/p" "permission_prompt" None t0
                  Ht0 ltac:(vm_compute; reflexivity)).
    destruct H as [H1 _].
    destruct (H1 "call-1" _ eq_refl) as [_ Hk].
    vm_compute in Hk. discriminate.
Qed.

End SessionTrackerFacts.

(** ** Escalation evaluator *)
(** ** Doubles *)
Module F64Facts.
Import F64.

Lemma digits2_size p : digits2_pos p = Pos.size p.
Proof. induction p; simpl; congruence. Qed.

Lemma digits2_iter p k : digits2_pos (Pos.iter xO p k) = (digits2_pos p + k)%positive.
Proof.
  induction k using Pos.peano_ind.
  - simpl. rewrite Pos.add_1_r. reflexivity.
  - rewrite Pos.iter_succ. simpl. rewrite IHk. lia.
Qed.

Lemma iter_xO p k : Zpos (Pos.iter xO p k) = Zpos p * 2 ^ Zpos k.
Proof.
  induction k using Pos.peano_ind.
  - simpl. lia.
  - rewrite Pos.iter_succ. rewrite Pos2Z.inj_succ, Z.pow_succ_r by lia.
    change (Zpos (xO (Pos.iter xO p k))) with (2 * Zpos (Pos.iter xO p k)). rewrite IHk. lia.
Qed.

(** The canonical form of a positive integer below [2^53]. *)
Definition canon (p : positive) : positive * Z :=
  let d := Zpos (Pos.size p) in
  match d - prec with
  | Zneg k => (Pos.iter xO p k, d - prec)
  | _ => (p, 0)
  end.

Lemma size_le_53 p : Zpos p < 2 ^ 53 -> (Pos.size p <= 53)%positive.
Proof.
  intros H. pose proof (Pos.size_le p) as Hle.
  apply Pos2Z.pos_le_pos in Hle. rewrite Pos2Z.inj_pow in Hle. change (Zpos p~0) with (2 * Zpos p) in Hle.
  destruct (Pos.leb_spec (Pos.size p) 53) as [|Hgt]; [assumption|].
  exfalso. assert (2 ^ 54 <= 2 ^ Zpos (Pos.size p)) by (apply Z.pow_le_mono_r; lia).
  lia.
Qed.

Lemma size_gt p : Zpos p < 2 ^ Zpos (Pos.size p).
Proof. pose proof (Pos.size_gt p) as H. apply Pos2Z.pos_lt_pos in H. rewrite Pos2Z.inj_pow in H. exact H. Qed.

Lemma size_le p : 2 ^ (Zpos (Pos.size p) - 1) <= Zpos p.
Proof.
  pose proof (Pos.size_le p) as H. apply Pos2Z.pos_le_pos in H. rewrite Pos2Z.inj_pow in H. change (Zpos p~0) with (2 * Zpos p) in H.
  assert (E : 2 ^ Zpos (Pos.size p) = 2 * 2 ^ (Zpos (Pos.size p) - 1)).
  { rewrite <- Z.pow_succ_r by lia. f_equal. lia. }
  lia.
Qed.

Lemma fexp_53 e : -1074 <= e -> fexp F64.prec F64.emax (53 + e) = e.
Proof. intros H. unfold fexp, emin, prec, emax. lia. Qed.

Lemma round_aux_exact sx m e :
  digits2_pos m = 53%positive -> -1074 <= e <= 971 ->
  binary_round_aux F64.prec F64.emax sx (Zpos m) e loc_Exact = S754_finite sx m e.
Proof.
  intros Hm He. unfold binary_round_aux, shr_fexp. simpl Zdigits2. rewrite Hm.
  rewrite fexp_53 by lia. rewrite Z.sub_diag. simpl.
  rewrite Hm, fexp_53 by lia. rewrite Z.sub_diag. simpl.
  replace (e <=? emax - prec) with true by (symmetry; apply Z.leb_le; unfold emax, prec; lia).
  reflexivity.
Qed.

Lemma round_small sx p : Zpos p < 2 ^ 53 ->
  exists m, binary_round F64.prec F64.emax sx p 0 = S754_finite sx m (Zpos (Pos.size p) - 53)
            /\ Zpos m = Zpos p * 2 ^ (53 - Zpos (Pos.size p)).
Proof.
  intros Hp. pose proof (size_le_53 p Hp) as Hs. apply Pos2Z.pos_le_pos in Hs.
  unfold binary_round. rewrite digits2_size, Z.add_0_r.
  replace (fexp F64.prec F64.emax (Zpos (Pos.size p))) with (Zpos (Pos.size p) - 53)
    by (unfold fexp, emin, prec, emax; lia).
  unfold shl_align. rewrite Z.sub_0_r.
  destruct (Zpos (Pos.size p) - 53) as [|k|k] eqn:E.
  - exists p. rewrite round_aux_exact; [split; [reflexivity|]| |].
    + replace (53 - Zpos (Pos.size p)) with 0 by lia. lia.
    + rewrite digits2_size. lia.
    + lia.
  - lia.
  - exists (Pos.iter xO p k). rewrite round_aux_exact; [split; [reflexivity|]| |].
    + rewrite iter_xO. f_equal. f_equal. lia.
    + rewrite digits2_iter, digits2_size. lia.
    + lia.
Qed.

Lemma compare_canon p q m1 m2 :
  Zpos p < 2 ^ 53 -> Zpos q < 2 ^ 53 ->
  Zpos m1 = Zpos p * 2 ^ (53 - Zpos (Pos.size p)) ->
  Zpos m2 = Zpos q * 2 ^ (53 - Zpos (Pos.size q)) ->
  match Z.compare (Zpos (Pos.size p) - 53) (Zpos (Pos.size q) - 53) with
  | Lt => Lt | Gt => Gt | Eq => Pos.compare_cont Eq m1 m2 end = Pos.compare p q.
Proof.
  intros Hp Hq H1 H2.
  pose proof (size_gt p). pose proof (size_gt q). pose proof (size_le p). pose proof (size_le q).
  pose proof (size_le_53 p Hp) as Sp. pose proof (size_le_53 q Hq) as Sq.
  apply Pos2Z.pos_le_pos in Sp, Sq.
  change (Pos.compare p q) with (Z.compare (Zpos p) (Zpos q)).
  destruct (Z.compare_spec (Zpos (Pos.size p) - 53) (Zpos (Pos.size q) - 53)) as [E|E|E].
  - assert (Es : Pos.size p = Pos.size q) by lia. rewrite Es in H1.
    change (Pos.compare_cont Eq m1 m2) with (Pos.compare m1 m2).
    change (Pos.compare m1 m2) with (Z.compare (Zpos m1) (Zpos m2)). rewrite H1, H2.
    assert (0 < 2 ^ (53 - Zpos (Pos.size q))) by (apply Z.pow_pos_nonneg; lia).
    destruct (Z.compare_spec (Zpos p) (Zpos q));
      [apply Z.compare_eq_iff | apply Z.compare_lt_iff | apply Z.compare_gt_iff]; nia.
  - symmetry. apply Z.compare_lt_iff.
    assert (2 ^ Zpos (Pos.size p) <= 2 ^ (Zpos (Pos.size q) - 1)) by (apply Z.pow_le_mono_r; lia).
    lia.
  - symmetry. apply Z.compare_gt_iff.
    assert (2 ^ Zpos (Pos.size q) <= 2 ^ (Zpos (Pos.size p) - 1)) by (apply Z.pow_le_mono_r; lia).
    lia.
Qed.

(** Integers of magnitude below [2^53] are exact doubles, ordered as integers. *)
Lemma compare_of_Z a b : - 2 ^ 53 < a < 2 ^ 53 -> - 2 ^ 53 < b < 2 ^ 53 ->
  SFcompare (of_Z a) (of_Z b) = Some (Z.compare a b).
Proof.
  intros Ha Hb. unfold of_Z, binary_normalize.
  destruct a as [|p|p], b as [|q|q]; try reflexivity;
  repeat match goal with
  | |- context [binary_round F64.prec F64.emax ?s ?x 0] =>
      let m := fresh "m" in let Hm := fresh "Hm" in
      destruct (round_small s x) as [m [-> Hm]]; [lia|]
  end; simpl; try reflexivity.
  - rewrite (compare_canon p q m m0) by (lia || assumption). reflexivity.
  - rewrite <- (compare_canon p q m m0) by (lia || assumption).
    destruct (_ ?= _); reflexivity.
Qed.
Lemma compare_swap x y : SFcompare y x = option_map CompOpp (SFcompare x y).
Proof.
  destruct x as [sx|sx| |sx mx ex], y as [sy|sy| |sy my ey]; simpl; try reflexivity;
    try (destruct sx; reflexivity); try (destruct sy; reflexivity);
    try (destruct sx, sy; reflexivity).
  destruct sx, sy; simpl; try reflexivity;
    change (Pos.compare_cont Eq my mx) with (Pos.compare my mx);
    change (Pos.compare_cont Eq mx my) with (Pos.compare mx my);
    rewrite (Z.compare_antisym ex ey), (Pos.compare_antisym mx my);
    destruct (Z.compare ex ey), (Pos.compare mx my); reflexivity.
Qed.

Lemma ltb_nan_l x : ltb S754_nan x = false.
Proof. reflexivity. Qed.

Lemma ltb_nan_r x : ltb x S754_nan = false.
Proof. destruct x; reflexivity. Qed.

Lemma leb_nan_l x : leb S754_nan x = false.
Proof. reflexivity. Qed.

Lemma ltb_irrefl x : ltb x x = false.
Proof.
  unfold ltb, SFltb. pose proof (compare_swap x x) as H.
  destruct (SFcompare x x) as [[]|]; try reflexivity. discriminate.
Qed.

Lemma leb_ltb_swap x y : leb x y && ltb y x = false.
Proof.
  unfold leb, ltb, SFleb, SFltb. rewrite (compare_swap x y).
  destruct (SFcompare x y) as [[]|]; reflexivity.
Qed.

Lemma ltb_of_Z a b : - 2 ^ 53 < a < 2 ^ 53 -> - 2 ^ 53 < b < 2 ^ 53 ->
  ltb (of_Z a) (of_Z b) = (a <? b).
Proof.
  intros Ha Hb. unfold ltb, SFltb. rewrite compare_of_Z by assumption.
  destruct (Z.compare_spec a b) as [E|E|E]; symmetry;
    [apply Z.ltb_ge; lia | apply Z.ltb_lt; lia | apply Z.ltb_ge; lia].
Qed.

Lemma leb_of_Z a b : - 2 ^ 53 < a < 2 ^ 53 -> - 2 ^ 53 < b < 2 ^ 53 ->
  leb (of_Z a) (of_Z b) = (a <=? b).
Proof.
  intros Ha Hb. unfold leb, SFleb. rewrite compare_of_Z by assumption.
  destruct (Z.compare_spec a b) as [E|E|E]; symmetry;
    [apply Z.leb_le; lia | apply Z.leb_le; lia | apply Z.leb_gt; lia].
Qed.

(** Syntactic equality of doubles, as a test. *)
Definition float_eqb (x y : spec_float) : bool :=
  match x, y with
  | S754_zero a, S754_zero b => Bool.eqb a b
  | S754_infinity a, S754_infinity b => Bool.eqb a b
  | S754_nan, S754_nan => true
  | S754_finite a m e, S754_finite b n f => Bool.eqb a b && Pos.eqb m n && Z.eqb e f
  | _, _ => false
  end.

Lemma float_eqb_eq x y : float_eqb x y = true -> x = y.
Proof.
  destruct x, y; simpl; intros H; try discriminate; try reflexivity;
    repeat match goal with
    | H : _ && _ = true |- _ => apply andb_prop in H as [? ?]
    | H : Bool.eqb _ _ = true |- _ => apply Bool.eqb_prop in H
    | H : Pos.eqb _ _ = true |- _ => apply Pos.eqb_eq in H
    | H : Z.eqb _ _ = true |- _ => apply Z.eqb_eq in H
    end; subst; reflexivity.
Qed.

(** [hour * 60 + minute] in doubles is exact for the hours 0..24 and
    minutes 0..59 a clock shows. *)
Lemma clock_minutes hour minute : 0 <= hour <= 24 -> 0 <= minute <= 59 ->
  add (mul (of_Z hour) (of_Z 60)) (of_Z minute) = of_Z (hour * 60 + minute).
Proof.
  intros Hh Hm.
  assert (H : forall_range (fun h => forall_range (fun m =>
                 float_eqb (add (mul (of_Z h) (of_Z 60)) (of_Z m)) (of_Z (h * 60 + m))) 0 60) 0 25 = true)
    by (vm_compute; reflexivity).
  apply float_eqb_eq.
  refine (CodecFacts.forall_range_sound_Z
            (fun m => float_eqb (add (mul (of_Z hour) (of_Z 60)) (of_Z m)) (of_Z (hour * 60 + m)))
            0 60 ltac:(lia) _ minute ltac:(lia)).
  exact (CodecFacts.forall_range_sound_Z _ 0 25 ltac:(lia) H hour ltac:(lia)).
Qed.

End F64Facts.

Module EscalationFacts.
Import Escalation.

Lemma constructor_fields `{RegexEngine} cfg llm ev :
  constructor cfg llm = Some ev -> config ev = cfg /\ llmProvider ev = llm.
Proof.
  unfold constructor. destruct (compile_all _); intros Hc; inversion Hc; subst; auto.
Qed.

Lemma evaluate_gate `{RegexEngine} `{JsonEngine} ev ctx now local :
  enabled (config ev) = true ->
  isEventTypeEligible (config ev) (event_type (event ctx)) = true ->
  isQuietHours (config ev) local = false ->
  evaluate ev ctx now local =
    let '(allowed, rsn) := checkRateLimits (config ev) ctx now in
    if negb allowed then result false rsn
    else if matchesAlwaysCallPatterns ev (eventContent ctx) then
      {| shouldEscalate := true; reason := RAlwaysCall; delayMs := None;
         skipNotification := Some true |}
    else
      let elapsed := now - default 0 (notificationSentAt ctx) in
      let timeoutMs := notificationTimeoutSeconds (triggers (config ev)) * 1000 in
      if JS.truthy_num (notificationSentAt ctx) && (elapsed <? timeoutMs) then
        {| shouldEscalate := false; reason := RNotificationPending;
           delayMs := Some (timeoutMs - elapsed); skipNotification := None |}
      else if useLlmForEscalation (triggers (config ev)) && bool_decide (is_Some (llmProvider ev)) then
        evaluateWithLLM ev ctx
      else result true RTimeoutElapsed.
Proof. intros He Hel Hq. unfold evaluate. rewrite He, Hel, Hq. reflexivity. Qed.

Lemma evaluate_always_call `{RegexEngine} `{JsonEngine} ev ctx now local :
  enabled (config ev) = true ->
  isEventTypeEligible (config ev) (event_type (event ctx)) = true ->
  isQuietHours (config ev) local = false ->
  fst (checkRateLimits (config ev) ctx now) = true ->
  matchesAlwaysCallPatterns ev (eventContent ctx) = true ->
  evaluate ev ctx now local =
    {| shouldEscalate := true; reason := RAlwaysCall; delayMs := None; skipNotification := Some true |}.
Proof.
  intros He Hel Hq Hr Hm. rewrite evaluate_gate by assumption.
  destruct (checkRateLimits _ _ _) as [[] rsn]; simpl in Hr; [|discriminate].
  simpl. rewrite Hm. reflexivity.
Qed.

Lemma evaluate_rate_blocked `{RegexEngine} `{JsonEngine} ev ctx now local :
  fst (checkRateLimits (config ev) ctx now) = false ->
  shouldEscalate (evaluate ev ctx now local) = false.
Proof.
  intros Hr. unfold evaluate.
  destruct (enabled (config ev)); [|reflexivity]. simpl.
  destruct (isEventTypeEligible _ _); [|reflexivity]. simpl.
  destruct (isQuietHours _ _); [reflexivity|].
  destruct (checkRateLimits _ _ _) as [[] rsn]; simpl in Hr; [discriminate|reflexivity].
Qed.

(** The end-to-end scenario of the specification: an enabled configuration
    with the always-call pattern [delete.*production] escalates the
    permission prompt "delete production database" at once, although its
    notification was sent 10 s ago. *)
Lemma delete_production_scenario :
  exists ev,
  @constructor MiniRegex.engine
    (Examples.with_patterns (Examples.with_enabled defaultCallEscalationConfig) ["delete.*production"]) None = Some ev
  /\ @evaluate MiniRegex.engine Examples.json_never ev Examples.delete_production_ctx 1200000 (Some (12, 0))
     = {| shouldEscalate := true; reason := RAlwaysCall; delayMs := None; skipNotification := Some true |}.
Proof. eexists. split; [reflexivity|]. vm_compute. reflexivity. Qed.

(** Claim C2: an always-call pattern that is not a valid regular expression
    gets no substring fallback: the constructor's [new RegExp(p, 'i')]
    throws, so no evaluator exists, although the content
    "rm -rf (prod" contains the pattern "(" as a substring. *)
Theorem always_call_invalid_pattern_throws cfg llm :
  @constructor MiniRegex.engine (Examples.with_patterns cfg ["("]) llm = None
  /\ JS.includes (JS.toLowerCase "rm -rf (prod") (JS.toLowerCase "(") = true.
Proof. split; reflexivity. Qed.

(** Claim C3: with quiet hours enabled, start and end times that
    [Number()] reads as whole numbers [s] and [e] of minutes, and a local
    clock time [hour:minute], [isQuietHours] holds exactly when [s > e]
    and the time is at or after [s] or before [e], or [s <= e] and the time
    is in [[s, e)]; whenever quiet hours hold, [evaluate] does not
    escalate; for the window 22:00-08:00, 23:00, 02:00 and 07:59 are quiet
    while 08:00, 12:00 and 21:59 are not. *)
Theorem isQuietHours_window `{RegexEngine} `{JsonEngine} cfg :
  (forall s e hour minute,
     qh_enabled (quietHours cfg) = true ->
     parse_minutes (qh_start (quietHours cfg)) = F64.of_Z s -> - 2 ^ 53 < s < 2 ^ 53 ->
     parse_minutes (qh_end (quietHours cfg)) = F64.of_Z e -> - 2 ^ 53 < e < 2 ^ 53 ->
     0 <= hour <= 24 -> 0 <= minute <= 59 ->
     (isQuietHours cfg (Some (hour, minute)) = true <->
        (e < s /\ (s <= hour * 60 + minute \/ hour * 60 + minute < e))
        \/ (s <= e /\ s <= hour * 60 + minute < e)))
  /\ (forall llm ev ctx now local, constructor cfg llm = Some ev ->
        isQuietHours cfg local = true ->
        shouldEscalate (evaluate ev ctx now local) = false)
  /\ map (fun hm => isQuietHours defaultCallEscalationConfig (Some hm))
       [(23, 0); (2, 0); (7, 59); (8, 0); (12, 0); (21, 59)]
     = [true; true; true; false; false; false].
Proof.
  split; [|split].
  - intros s e hour minute Hen Hs Hsb He Heb Hh Hm.
    unfold isQuietHours. rewrite Hen, Hs, He. simpl.
    rewrite F64Facts.clock_minutes by assumption. unfold in_quiet_window.
    rewrite !F64Facts.ltb_of_Z, !F64Facts.leb_of_Z by lia.
    destruct (Z.ltb_spec e s).
    + rewrite orb_true_iff, Z.leb_le, Z.ltb_lt. lia.
    + rewrite andb_true_iff, Z.leb_le, Z.ltb_lt. lia.
  - intros llm ev ctx now local Hc Hq. apply constructor_fields in Hc as [Hcfg _].
    unfold evaluate. rewrite Hcfg, Hq.
    destruct (enabled cfg); [|reflexivity]. simpl.
    destruct (isEventTypeEligible _ _); reflexivity.
  - vm_compute. reflexivity.
Qed.

Lemma isQuietHours_window_witness :
  parse_minutes " 22:00" = F64.of_Z 1320
  /\ isQuietHours Scenarios.spaced_window_cfg (Some (23, 0)) = true.
Proof.
  assert (Hs : parse_minutes (qh_start (quietHours Scenarios.spaced_window_cfg)) = F64.of_Z 1320)
    by (vm_compute; reflexivity).
  assert (He : parse_minutes (qh_end (quietHours Scenarios.spaced_window_cfg)) = F64.of_Z 480)
    by (vm_compute; reflexivity).
  split; [exact Hs|].
  apply (proj2 (proj1 (@isQuietHours_window MiniRegex.engine Examples.json_never
                  Scenarios.spaced_window_cfg) 1320 480 23 0 eq_refl Hs ltac:(lia) He ltac:(lia)
                  ltac:(lia) ltac:(lia))).
  left. lia.
Defined.

(** Claim C4 (as the code does it): when escalation is enabled, the event
    type is eligible and quiet hours are inactive, a previous call at a
    non-zero time [p] less than [minCallIntervalSeconds] ago gives
    [shouldEscalate = false] with the wait
    [ceil((minInterval - elapsed) / 1000)] seconds; a count of calls in the
    last hour at least [maxCallsPerHour] always gives
    [shouldEscalate = false]; [getCallCountLastHour] counts, and keeps,
    exactly the history entries of the last hour; the disabled,
    ineligible and quiet-hours checks come first, each with its own
    reason. *)
Theorem evaluate_rate_limits `{RegexEngine} `{JsonEngine} cfg llm ev ctx now local :
  constructor cfg llm = Some ev ->
  (enabled cfg = false -> evaluate ev ctx now local = result false RDisabled)
  /\ (enabled cfg = true -> isEventTypeEligible cfg (event_type (event ctx)) = false ->
      evaluate ev ctx now local = result false (RNotEligible (event_type (event ctx))))
  /\ (enabled cfg = true -> isEventTypeEligible cfg (event_type (event ctx)) = true ->
      isQuietHours cfg local = true -> evaluate ev ctx now local = result false RQuietHours)
  /\ (forall p, enabled cfg = true ->
     isEventTypeEligible cfg (event_type (event ctx)) = true ->
     isQuietHours cfg local = false ->
     previousCallAt ctx = Some p -> p <> 0 ->
     now - p < minCallIntervalSeconds (rateLimiting cfg) * 1000 ->
     evaluate ev ctx now local =
       result false (RRateWait (ceil_div (minCallIntervalSeconds (rateLimiting cfg) * 1000 - (now - p)) 1000)))
  /\ (maxCallsPerHour (rateLimiting cfg) <= callCountLastHour ctx ->
      shouldEscalate (evaluate ev ctx now local) = false)
  /\ (forall h, fst (getCallCountLastHour now h) = Z.of_nat (length (snd (getCallCountLastHour now h)))
      /\ forall t, In t (snd (getCallCountLastHour now h)) <-> In t h /\ now - one_hour_ms < t).
Proof.
  intros Hc. pose proof (constructor_fields _ _ _ Hc) as [Hcfg _].
  split; [intros Hen; unfold evaluate; rewrite Hcfg, Hen; reflexivity|].
  split; [intros Hen Hel; unfold evaluate; rewrite Hcfg, Hen, Hel; reflexivity|].
  split; [intros Hen Hel Hq; unfold evaluate; rewrite Hcfg, Hen, Hel, Hq; reflexivity|].
  split; [|split].
  - intros p Hen Hel Hq Hp Hp0 Hlt. subst cfg.
    rewrite evaluate_gate by assumption.
    unfold checkRateLimits. rewrite Hp. simpl.
    destruct p; [congruence| |]; simpl;
    rewrite (proj2 (Z.ltb_lt _ _) Hlt); reflexivity.
  - intros Hmax. apply evaluate_rate_blocked. subst cfg. unfold checkRateLimits.
    destruct (JS.truthy_num _ && _); [reflexivity|].
    rewrite (proj2 (Z.geb_le _ _) Hmax). reflexivity.
  - intros h. split; [reflexivity|]. intros t. simpl. unfold pruneCallHistory.
    rewrite filter_In, Z.gtb_lt. tauto.
Qed.

Lemma evaluate_rate_limits_witness : exists ev,
  @constructor MiniRegex.engine (Examples.with_enabled defaultCallEscalationConfig) None = Some ev
  /\ @evaluate MiniRegex.engine Examples.json_never ev Examples.permission_ctx 1200000 (Some (12, 0))
     = result false (RRateWait 100).
Proof.
  eexists. split; [reflexivity|].
  refine (proj1 (proj2 (proj2 (proj2 (@evaluate_rate_limits MiniRegex.engine Examples.json_never
            (Examples.with_enabled defaultCallEscalationConfig) None _ Examples.permission_ctx
            1200000 (Some (12, 0)) eq_refl)))) 1000000 eq_refl eq_refl _ eq_refl _ _).
  - vm_compute. reflexivity.
  - discriminate.
  - vm_compute. reflexivity.
Defined.

(** Claim C4 (as stated): every context with a previous call less than
    [minCallIntervalSeconds] ago would get the rate-limit wait. False for an
    enabled default configuration and a question event 200 s after a call:
    question events are not eligible, and that is the reason returned. *)
Lemma evaluate_rate_wait_cx :
  ~ (forall cfg llm ev ctx now local p,
       @constructor MiniRegex.engine cfg llm = Some ev ->
       previousCallAt ctx = Some p -> p <> 0 ->
       now - p < minCallIntervalSeconds (rateLimiting cfg) * 1000 ->
       @evaluate MiniRegex.engine Examples.json_never ev ctx now local =
         result false (RRateWait (ceil_div (minCallIntervalSeconds (rateLimiting cfg) * 1000 - (now - p)) 1000))).
Proof.
  intros Hall.
  specialize (Hall (Examples.with_enabled defaultCallEscalationConfig) None _ Examples.question_ctx
                1200000 (Some (12, 0)) 1000000 eq_refl eq_refl ltac:(lia) ltac:(vm_compute; reflexivity)).
  vm_compute in Hall. discriminate.
Qed.

(** Claim C10: a judge reply without a JSON object gets no keyword
    fallback: for the reply "Yes, call the user." [evaluateWithLLM]
    declines to escalate, although the keyword scan of the reply would
    escalate. *)
Theorem llm_reply_without_json_declines `{RegexEngine} `{JsonEngine} cfg analyze ev ctx :
  constructor cfg (Some analyze) = Some ev ->
  analyze (llm_request cfg ctx) = Some (Some Examples.judge_reply) ->
  evaluateWithLLM ev ctx = result false (RLlm "LLM decision")
  /\ keyword_decision (JS.toLowerCase Examples.judge_reply) = true.
Proof.
  intros Hc Ha. apply constructor_fields in Hc as [Hcfg Hl].
  split; [|reflexivity].
  unfold evaluateWithLLM. rewrite Hl, Hcfg, Ha. reflexivity.
Qed.

Lemma llm_reply_without_json_declines_witness : exists ev,
  @constructor MiniRegex.engine defaultCallEscalationConfig (Some Examples.judge) = Some ev
  /\ @evaluateWithLLM MiniRegex.engine Examples.json_never ev Examples.permission_ctx
     = result false (RLlm "LLM decision").
Proof.
  eexists. split; [reflexivity|].
  exact (proj1 (@llm_reply_without_json_declines MiniRegex.engine Examples.json_never
                  defaultCallEscalationConfig Examples.judge _ Examples.permission_ctx eq_refl eq_refl)).
Defined.

End EscalationFacts.

Module StreamingFacts.
Import Codec Streaming.

Lemma byte_at_app_l a b j : 0 <= j -> (Z.to_nat j < length a)%nat -> byte_at (a ++ b) j = byte_at a j.
Proof. intros. unfold byte_at. apply app_nth1. lia. Qed.

Lemma byte_at_app_r a b j : Z.of_nat (length a) <= j ->
  byte_at (a ++ b) j = byte_at b (j - Z.of_nat (length a)).
Proof.
  intros. unfold byte_at. rewrite app_nth2 by lia. f_equal. lia.
Qed.

Lemma readInt16LE_app_l a b off : 0 <= off -> off + 1 < Z.of_nat (length a) ->
  readInt16LE (a ++ b) off = readInt16LE a off.
Proof. intros. unfold readInt16LE. rewrite !byte_at_app_l by lia. reflexivity. Qed.

Lemma readInt16LE_app_r a b off : Z.of_nat (length a) <= off ->
  readInt16LE (a ++ b) off = readInt16LE b (off - Z.of_nat (length a)).
Proof.
  intros. unfold readInt16LE. rewrite !byte_at_app_r by lia.
  replace (off + 1 - Z.of_nat (length a)) with (off - Z.of_nat (length a) + 1) by lia. reflexivity.
Qed.

Lemma map_seq_shift {A} (f : nat -> A) k m :
  map f (seq k m) = map (fun i => f (k + i)%nat) (seq 0 m).
Proof.
  revert f k. induction m as [|m IH]; intros f k; [reflexivity|]. simpl.
  rewrite Nat.add_0_r. f_equal. rewrite (IH f (S k)).
  rewrite (IH (fun i => f (k + i)%nat) 1%nat). apply map_ext. intros i. f_equal. lia.
Qed.

Lemma resample_sample_app_l a b k i : length a = (6 * k)%nat -> (i < k)%nat ->
  resample_sample (a ++ b) (Z.of_nat i) = resample_sample a (Z.of_nat i).
Proof.
  intros Ha Hi. unfold resample_sample. rewrite length_app, Ha.
  rewrite !(proj2 (Z.ltb_lt _ _)) by lia.
  rewrite !readInt16LE_app_l by lia. reflexivity.
Qed.

Lemma resample_sample_app_r a b k i : length a = (6 * k)%nat ->
  resample_sample (a ++ b) (Z.of_nat (k + i)) = resample_sample b (Z.of_nat i).
Proof.
  intros Ha. unfold resample_sample. rewrite length_app, Ha.
  rewrite !readInt16LE_app_r by (rewrite Ha; lia). rewrite Ha.
  replace (Z.of_nat (k + i) * 3 * 2 - Z.of_nat (6 * k)) with (Z.of_nat i * 3 * 2) by lia.
  replace ((Z.of_nat (k + i) * 3 + 1) * 2 - Z.of_nat (6 * k)) with ((Z.of_nat i * 3 + 1) * 2) by lia.
  replace ((Z.of_nat (k + i) * 3 + 2) * 2 - Z.of_nat (6 * k)) with ((Z.of_nat i * 3 + 2) * 2) by lia.
  replace (2 * (Z.of_nat (k + i) * 3 + 1) <? Z.of_nat (6 * k + length b))
    with (2 * (Z.of_nat i * 3 + 1) <? Z.of_nat (length b))
    by (destruct (Z.ltb_spec (2 * (Z.of_nat i * 3 + 1)) (Z.of_nat (length b)));
        destruct (Z.ltb_spec (2 * (Z.of_nat (k + i) * 3 + 1)) (Z.of_nat (6 * k + length b))); lia).
  replace (2 * (Z.of_nat (k + i) * 3 + 2) <? Z.of_nat (6 * k + length b))
    with (2 * (Z.of_nat i * 3 + 2) <? Z.of_nat (length b))
    by (destruct (Z.ltb_spec (2 * (Z.of_nat i * 3 + 2)) (Z.of_nat (length b)));
        destruct (Z.ltb_spec (2 * (Z.of_nat (k + i) * 3 + 2)) (Z.of_nat (6 * k + length b))); lia).
  reflexivity.
Qed.

Lemma outputSamples_nat buf : Z.to_nat (outputSamples buf) = (length buf / 6)%nat.
Proof.
  unfold outputSamples. change 6 with (Z.of_nat 6). rewrite <- Nat2Z.inj_div. apply Nat2Z.id.
Qed.

Lemma resample_app a b k : length a = (6 * k)%nat ->
  resample24kTo8k (a ++ b) = resample24kTo8k a ++ resample24kTo8k b.
Proof.
  intros Ha. unfold resample24kTo8k. rewrite !outputSamples_nat, length_app, Ha.
  replace ((6 * k + length b) / 6)%nat with (k + length b / 6)%nat.
  2:{ rewrite Nat.mul_comm, Nat.div_add_l by lia. reflexivity. }
  replace (6 * k / 6)%nat with k by (rewrite Nat.mul_comm, Nat.div_mul; lia).
  rewrite seq_app, map_app, concat_app. f_equal.
  - f_equal. apply map_ext_in. intros i Hi. apply in_seq in Hi.
    rewrite (resample_sample_app_l a b k) by (assumption || lia). reflexivity.
  - rewrite map_seq_shift. f_equal. apply map_ext. intros i. simpl.
    rewrite (resample_sample_app_r a b k) by assumption. reflexivity.
Qed.

Lemma length_resample a : length (resample24kTo8k a) = (2 * (length a / 6))%nat.
Proof.
  unfold resample24kTo8k. rewrite outputSamples_nat.
  induction (length a / 6)%nat as [|n IH]; [reflexivity|].
  rewrite seq_S, map_app, concat_app, length_app, IH. simpl. lia.
Qed.

Lemma pcmToMuLaw_app a b k : length a = (2 * k)%nat ->
  pcmToMuLaw (a ++ b) = pcmToMuLaw a ++ pcmToMuLaw b.
Proof.
  intros Ha. unfold pcmToMuLaw. rewrite length_app, Ha.
  replace ((2 * k + length b) / 2)%nat with (k + length b / 2)%nat.
  2:{ rewrite Nat.mul_comm, Nat.div_add_l by lia. reflexivity. }
  replace (2 * k / 2)%nat with k by (rewrite Nat.mul_comm, Nat.div_mul; lia).
  rewrite seq_app, map_app. f_equal.
  - apply map_ext_in. intros i Hi. apply in_seq in Hi.
    rewrite readInt16LE_app_l by lia. reflexivity.
  - rewrite map_seq_shift. apply map_ext. intros i. simpl.
    rewrite readInt16LE_app_r by lia. f_equal. f_equal. lia.
Qed.

Lemma downsample_compand_app a b k : length a = (6 * k)%nat ->
  downsample_compand (a ++ b) = downsample_compand a ++ downsample_compand b.
Proof.
  intros Ha. unfold downsample_compand. rewrite (resample_app a b k Ha).
  apply (pcmToMuLaw_app _ _ (length a / 6)). apply length_resample.
Qed.

Lemma downsample_compand_short b : (length b < 6)%nat -> downsample_compand b = [].
Proof.
  intros Hb. unfold downsample_compand, resample24kTo8k. rewrite outputSamples_nat.
  rewrite Nat.div_small by exact Hb. reflexivity.
Qed.

Lemma chunk_loop_spec size buf : (0 < size)%nat -> forall f i,
  (length buf - i <= f)%nat ->
  concat (chunk_loop f size buf i) = skipn i buf /\ chunked size (chunk_loop f size buf i).
Proof.
  intros Hs. induction f as [|f IH]; intros i Hf; simpl.
  - rewrite skipn_all2 by lia. split; [reflexivity|split; constructor].
  - destruct (Nat.ltb_spec i (length buf)) as [Hi|Hi].
    + destruct (IH (i + size)%nat ltac:(lia)) as [Hc [Hr Hl]]. split.
      * simpl. rewrite Hc. unfold subarray. replace (i + size - i)%nat with size by lia.
        replace (skipn (i + size) buf) with (skipn size (skipn i buf))
          by (rewrite skipn_skipn; f_equal; lia).
        apply firstn_skipn.
      * assert (Hlen : length (subarray buf i (i + size)) = Nat.min size (length buf - i)).
        { unfold subarray. rewrite length_firstn, length_skipn. f_equal. lia. }
        split.
        -- destruct (chunk_loop f size buf (i + size)) as [|c r] eqn:E; simpl; [constructor|].
           constructor; [|exact Hr].
           rewrite Hlen. destruct f as [|f']; simpl in E; [discriminate|].
           destruct (Nat.ltb_spec (i + size) (length buf)); [lia|discriminate].
        -- constructor; [rewrite Hlen; lia|exact Hl].
    + rewrite skipn_all2 by lia. split; [reflexivity|split; constructor].
Qed.

Lemma chunk_by_spec size buf : (0 < size)%nat ->
  concat (chunk_by size buf) = buf /\ chunked size (chunk_by size buf).
Proof.
  intros Hs. unfold chunk_by. destruct (chunk_loop_spec size buf Hs (length buf) 0 ltac:(lia)) as [H1 H2].
  split; [exact H1|exact H2].
Qed.

Lemma concat_length_pos (l : list (list Z)) :
  Forall (fun c => (0 < length c)%nat) l -> l <> [] -> (0 < length (concat l))%nat.
Proof.
  intros H Hne. destruct l as [|c r]; [congruence|]. inversion H; subst.
  simpl. rewrite length_app. lia.
Qed.

Lemma chunked_unique size l1 l2 :
  chunked size l1 -> chunked size l2 -> concat l1 = concat l2 -> l1 = l2.
Proof.
  revert l2. induction l1 as [|c1 r1 IH]; intros l2 [H1r H1l] [H2r H2l] Heq.
  - destruct l2 as [|c2 r2]; [reflexivity|]. inversion H2l; subst.
    simpl in Heq. destruct c2; simpl in *; [lia|discriminate].
  - destruct l2 as [|c2 r2].
    + inversion H1l; subst. simpl in Heq. destruct c1; simpl in *; [lia|discriminate].
    + inversion H1l as [|? ? Hc1 Hr1l]; subst. inversion H2l as [|? ? Hc2 Hr2l]; subst.
      simpl in Heq.
      destruct r1 as [|d1 r1'] eqn:E1; destruct r2 as [|d2 r2'] eqn:E2.
      * simpl in Heq. rewrite !app_nil_r in Heq. subst. reflexivity.
      * exfalso. simpl in H2r. inversion H2r; subst.
        assert (Hp : (0 < length (concat (d2 :: r2')))%nat)
          by (apply concat_length_pos; [refine (Forall_impl _ _ _ Hr2l _); intros x Hx; lia|discriminate]).
        simpl in Heq. rewrite app_nil_r in Heq.
        apply (f_equal (@length Z)) in Heq. rewrite !length_app in Heq. simpl in Hp. rewrite length_app in Hp. lia.
      * exfalso. simpl in H1r. inversion H1r; subst.
        assert (Hp : (0 < length (concat (d1 :: r1')))%nat)
          by (apply concat_length_pos; [refine (Forall_impl _ _ _ Hr1l _); intros x Hx; lia|discriminate]).
        simpl in Heq. rewrite app_nil_r in Heq.
        apply (f_equal (@length Z)) in Heq. rewrite !length_app in Heq. simpl in Hp. rewrite length_app in Hp. lia.
      * simpl in H1r, H2r.
        pose proof (Forall_inv H1r) as Hl1. pose proof (Forall_inv_tail H1r) as H1r'.
        pose proof (Forall_inv H2r) as Hl2. pose proof (Forall_inv_tail H2r) as H2r'.
        simpl in Hl1, Hl2.
        destruct (app_inj_1 c1 c2 _ _ ltac:(lia) Heq) as [Hc Hrest].
        subst c2. f_equal.
        apply IH; [split; assumption|split; assumption|exact Hrest].
Qed.

Lemma subarray_0 buf n : subarray buf 0 n = firstn n buf.
Proof. unfold subarray. rewrite Nat.sub_0_r. reflexivity. Qed.

Lemma drain_loop_spec f mu out :
  (length mu <= f * 160)%nat ->
  let '(mu', out') := drain_loop f mu out in
  (exists new, out' = out ++ new /\ Forall (fun c => length c = 160%nat) new /\ concat new ++ mu' = mu)
  /\ (length mu' < 160)%nat.
Proof.
  revert mu out. induction f as [|f IH]; intros mu out Hf.
  - simpl. destruct mu; simpl in Hf; [|lia]. split; [exists []; rewrite app_nil_r; auto|simpl; lia].
  - cbn [drain_loop]. destruct (Nat.leb_spec OUTPUT_CHUNK_SIZE (length mu)) as [Hle|Hlt].
    + unfold OUTPUT_CHUNK_SIZE in *.
      specialize (IH (skipn 160 mu) (out ++ [subarray mu 0 160])).
      rewrite length_skipn in IH. specialize (IH ltac:(lia)).
      destruct (drain_loop f (skipn 160 mu) (out ++ [subarray mu 0 160])) as [mu' out'].
      destruct IH as [[new [Ho [Hf' Hc]]] Hl]. split; [|exact Hl].
      exists (subarray mu 0 160 :: new). rewrite Ho, <- app_assoc. split; [reflexivity|].
      rewrite subarray_0. split.
      * constructor; [rewrite length_firstn; lia|exact Hf'].
      * simpl. rewrite <- app_assoc, Hc. apply firstn_skipn.
    + split; [exists []; rewrite app_nil_r; auto|exact Hlt].
Qed.

Definition stream_inv (cs : list (list Z)) (st : StreamState) : Prop :=
  exists processed k,
    concat cs = processed ++ pendingPcm st /\ length processed = (6 * k)%nat /\
    concat (sent st) ++ pendingMuLaw st = downsample_compand processed /\
    Forall (fun c => length c = 160%nat) (sent st) /\
    (length (pendingPcm st) < 6)%nat.

Lemma drainBuffer_spec st :
  let st' := drainBuffer st in
  pendingPcm st' = pendingPcm st /\
  (exists new, sent st' = sent st ++ new /\ Forall (fun c => length c = 160%nat) new /\
               concat new ++ pendingMuLaw st' = pendingMuLaw st) /\
  (length (pendingMuLaw st') < 160)%nat.
Proof.
  unfold drainBuffer. pose proof (drain_loop_spec (length (pendingMuLaw st)) (pendingMuLaw st) (sent st) ltac:(lia)) as H.
  destruct (drain_loop _ _ _) as [mu' out']. simpl. destruct H as [H1 H2]. auto.
Qed.

Lemma drainBuffer_inv cs st : stream_inv cs st -> stream_inv cs (drainBuffer st).
Proof.
  intros (p & k & G1 & G2 & G3 & G4 & G5).
  destruct (drainBuffer_spec st) as (Hp & (new & Hs & Hf & Hc) & _).
  exists p, k. rewrite Hp, Hs. repeat split; auto.
  - rewrite concat_app, <- app_assoc, Hc. exact G3.
  - apply Forall_app; auto.
Qed.

Lemma stream_step_inv cs st c : stream_inv cs st -> stream_inv (cs ++ [c]) (stream_step st c).
Proof.
  intros (processed & k & Hcat & Hk & Hmu & Hsent & Hpend).
  unfold stream_step. set (pcm := pendingPcm st ++ c).
  destruct (Nat.ltb_spec 0 (length pcm / 6)) as [Hu|Hu].
  - set (u := (length pcm / 6)%nat).
    assert (Hsplit : pcm = subarray pcm 0 (u * 6) ++ skipn (u * 6) pcm)
      by (rewrite subarray_0; symmetry; apply firstn_skipn).
    assert (Hlen : length (subarray pcm 0 (u * 6)) = (6 * u)%nat).
    { rewrite subarray_0, length_firstn. pose proof (Nat.Div0.mul_div_le (length pcm) 6). unfold u. lia. }
    assert (Hrem : (length (skipn (u * 6) pcm) < 6)%nat).
    { rewrite length_skipn. pose proof (Nat.mod_upper_bound (length pcm) 6).
      pose proof (Nat.div_mod_eq (length pcm) 6). unfold u. lia. }
    assert (Hinv : stream_inv (cs ++ [c])
      {| pendingPcm := skipn (u * 6) pcm;
         pendingMuLaw := pendingMuLaw st ++ pcmToMuLaw (resample24kTo8k (subarray pcm 0 (u * 6)));
         playbackStarted := playbackStarted st; sent := sent st |}).
    { exists (processed ++ subarray pcm 0 (u * 6)), (k + u)%nat. simpl. repeat split.
      - rewrite concat_app, Hcat. simpl. rewrite app_nil_r, <- !app_assoc. f_equal.
        fold pcm. rewrite Hsplit at 1. reflexivity.
      - rewrite length_app, Hk, Hlen. lia.
      - rewrite app_assoc, Hmu. rewrite (downsample_compand_app _ _ k Hk). reflexivity.
      - exact Hsent.
      - exact Hrem. }
    match goal with |- stream_inv _ (if ?b then _ else _) => destruct b end.
    + exact Hinv.
    + apply drainBuffer_inv. destruct Hinv as (p2 & k2 & H). exists p2, k2. exact H.
  - exists processed, k. simpl. repeat split; auto.
    + rewrite concat_app, Hcat. simpl. rewrite app_nil_r, <- app_assoc. reflexivity.
    + pose proof (Nat.div_mod_eq (length pcm) 6). pose proof (Nat.mod_upper_bound (length pcm) 6). fold pcm. lia.
Qed.

Lemma fold_stream_inv cs : forall pre st, stream_inv pre st -> stream_inv (pre ++ cs) (fold_left stream_step cs st).
Proof.
  induction cs as [|c cs IH]; intros pre st H; simpl.
  - rewrite app_nil_r. exact H.
  - replace (pre ++ c :: cs) with ((pre ++ [c]) ++ cs) by (rewrite <- app_assoc; reflexivity).
    apply IH. apply stream_step_inv. exact H.
Qed.

Lemma Forall_removelast {A} (P : A -> Prop) (l : list A) : Forall P l -> Forall P (removelast l).
Proof.
  induction l as [|a l IH]; intros H; [constructor|]. inversion H; subst.
  destruct l as [|b l]; [constructor|]. constructor; [assumption|]. apply IH. assumption.
Qed.

Lemma chunked_flush (out : list (list Z)) (mu : list Z) :
  Forall (fun c => length c = 160%nat) out -> (length mu < 160)%nat ->
  chunked 160 (if (0 <? length mu)%nat then out ++ [mu] else out) /\
  concat (if (0 <? length mu)%nat then out ++ [mu] else out) = concat out ++ mu.
Proof.
  intros Ho Hm. destruct (Nat.ltb_spec 0 (length mu)) as [Hp|Hz].
  - split; [split|].
    + rewrite removelast_last. exact Ho.
    + apply Forall_app. split; [|constructor; [lia|constructor]].
      eapply Forall_impl; [exact Ho|]. simpl. intros x Hx. lia.
    + rewrite concat_app. simpl. rewrite app_nil_r. reflexivity.
  - destruct mu; [|simpl in Hz; lia]. rewrite app_nil_r. split; [split|reflexivity].
    + apply Forall_removelast. exact Ho.
    + eapply Forall_impl; [exact Ho|]. simpl. intros x Hx. lia.
Qed.

Lemma sendAudio_spec pcm :
  chunked 160 (sendAudio pcm) /\ concat (sendAudio pcm) = downsample_compand pcm.
Proof.
  unfold sendAudio. destruct (chunk_by_spec 160 (downsample_compand pcm) ltac:(lia)) as [H1 H2].
  split; [exact H2|exact H1].
Qed.

Lemma speakStreaming_eq chunks : speakStreaming chunks = sendAudio (concat chunks).
Proof.
  assert (H0 : stream_inv [] stream_init) by (exists [], 0%nat; split; [reflexivity|split; [reflexivity|split; [reflexivity|split; [constructor|simpl; lia]]]]).
  pose proof (drainBuffer_inv _ _ (fold_stream_inv chunks [] stream_init H0)) as Hinv.
  pose proof (drainBuffer_spec (fold_left stream_step chunks stream_init)) as (_ & _ & Hlt).
  unfold speakStreaming. set (st := drainBuffer (fold_left stream_step chunks stream_init)) in *.
  destruct Hinv as (p & k & G1 & G2 & G3 & G4 & G5). simpl in G1.
  destruct (chunked_flush (sent st) (pendingMuLaw st) G4 Hlt) as [Hc Hcat].
  destruct (sendAudio_spec (concat chunks)) as [Sc Scat].
  eapply chunked_unique; [exact Hc|exact Sc|].
  rewrite Hcat, Scat, G3, G1, (downsample_compand_app _ _ k G2), (downsample_compand_short _ G5), app_nil_r.
  reflexivity.
Qed.

Lemma synth_loop_chunk f size buf i : synth_loop f size buf i = chunk_loop f size buf i.
Proof.
  revert i. induction f as [|f IH]; intros i; simpl; [reflexivity|].
  destruct (Nat.ltb_spec i (length buf)); [|reflexivity].
  rewrite IH. f_equal. unfold subarray.
  destruct (Nat.le_ge_cases (i + size) (length buf)).
  - rewrite Nat.min_l by lia. reflexivity.
  - rewrite Nat.min_r by lia. rewrite !firstn_all2 by (rewrite length_skipn; lia). reflexivity.
Qed.

(** The three ways [speak] and [initiateCall] deliver speech agree: the
    streamed path fed by [synthesizeStream] (8 KB pieces that together are
    the synthesised audio), [sendAudio], and [sendPreGeneratedAudio] of the
    audio prepared by [generateTTSAudio] hand the same 160-byte frames to
    [sendMediaChunk]. *)
Theorem speech_paths_agree pcm :
  concat (synthesizeStream pcm) = pcm
  /\ chunked 8192 (synthesizeStream pcm)
  /\ speakStreaming (synthesizeStream pcm) = sendAudio pcm
  /\ sendPreGeneratedAudio (downsample_compand pcm) = sendAudio pcm.
Proof.
  unfold synthesizeStream. cbv zeta. rewrite synth_loop_chunk.
  destruct (chunk_by_spec 8192 pcm ltac:(apply Nat.ltb_lt; vm_compute; reflexivity)) as [H1 H2]. unfold chunk_by in H1, H2.
  split; [exact H1|]. split; [exact H2|]. split; [|reflexivity].
  rewrite speakStreaming_eq, H1. reflexivity.
Qed.

Lemma mono_adjacent (g : Z -> Z) lo hi :
  (forall x, lo <= x < hi -> g (x + 1) <= g x) ->
  forall a b, lo <= a -> a <= b -> b <= hi -> g b <= g a.
Proof.
  intros Hs a b Ha Hab Hb.
  assert (Hk : forall k, a + Z.of_nat k <= hi -> g (a + Z.of_nat k) <= g a).
  { induction k as [|k IH]; intros Hk.
    - rewrite Z.add_0_r. reflexivity.
    - specialize (Hs (a + Z.of_nat k) ltac:(lia)). specialize (IH ltac:(lia)).
      replace (a + Z.of_nat (S k)) with (a + Z.of_nat k + 1) by lia. lia. }
  replace b with (a + Z.of_nat (Z.to_nat (b - a))) by lia. apply Hk. lia.
Qed.

(** The mu-law code of a 16-bit sample is a byte whose top bit is set
    exactly for non-negative samples, and it is monotone in the magnitude:
    among non-negative samples a larger one never gets a larger code, and
    among negative samples a more negative one never gets a larger code. *)
Theorem pcmToMuLawSample_order a b :
  int16 a -> int16 b ->
  0 <= pcmToMuLawSample a <= 255
  /\ (128 <= pcmToMuLawSample a <-> 0 <= a)
  /\ (0 <= a <= b -> pcmToMuLawSample b <= pcmToMuLawSample a)
  /\ (a <= b < 0 -> pcmToMuLawSample a <= pcmToMuLawSample b).
Proof.
  intros Ha Hb. unfold int16 in *.
  assert (Hr : forall_range (fun v => (0 <=? pcmToMuLawSample v) && (pcmToMuLawSample v <=? 255)
                   && Bool.eqb (128 <=? pcmToMuLawSample v) (0 <=? v)) (-32768) (Z.to_nat 65536) = true)
    by (vm_compute; reflexivity).
  pose proof (CodecFacts.forall_range_sound_Z _ (-32768) 65536 ltac:(lia) Hr a ltac:(lia)) as Hra.
  apply andb_true_iff in Hra as [Hra Hs]. apply andb_true_iff in Hra as [H0 H255].
  apply Z.leb_le in H0, H255. apply Bool.eqb_prop in Hs.
  split; [lia|]. split.
  { split; intros H.
    - apply Z.leb_le in H. rewrite H in Hs. symmetry in Hs. apply Z.leb_le in Hs. exact Hs.
    - apply Z.leb_le in H. rewrite H in Hs. apply Z.leb_le in Hs. exact Hs. }
  split.
  - intros Hab. apply (mono_adjacent pcmToMuLawSample 0 32767); try lia.
    assert (Hp : forall_range (fun v => pcmToMuLawSample (v + 1) <=? pcmToMuLawSample v) 0 (Z.to_nat 32767) = true)
      by (vm_compute; reflexivity).
    intros x Hx. apply Z.leb_le. exact (CodecFacts.forall_range_sound_Z _ 0 32767 ltac:(lia) Hp x ltac:(lia)).
  - intros Hab.
    assert (Hn : forall_range (fun v => pcmToMuLawSample v <=? pcmToMuLawSample (v + 1)) (-32768) (Z.to_nat 32767) = true)
      by (vm_compute; reflexivity).
    assert (Hstep : forall x, -32768 <= x < -1 -> - pcmToMuLawSample (x + 1) <= - pcmToMuLawSample x).
    { intros x Hx. apply Z.opp_le_mono. rewrite !Z.opp_involutive. apply Z.leb_le.
      exact (CodecFacts.forall_range_sound_Z _ (-32768) 32767 ltac:(lia) Hn x ltac:(lia)). }
    pose proof (mono_adjacent (fun v => - pcmToMuLawSample v) (-32768) (-1) Hstep a b ltac:(lia) ltac:(lia) ltac:(lia)) as Hm.
    simpl in Hm. lia.
Qed.

(** The streamed path sends the same frames as the one-shot path: for
    every way the synthesised audio is split into pieces, [speakStreaming]
    hands to [sendMediaChunk] exactly the frames [sendAudio] hands it for
    the whole audio. *)
Theorem speakStreaming_sendAudio chunks : speakStreaming chunks = sendAudio (concat chunks).
Proof. exact (speakStreaming_eq chunks). Qed.

(** [sendAudio] sends the mu-law encoding of the downsampled audio, cut in
    order into frames of 160 bytes, all full but the last, none empty. *)
Theorem sendAudio_frames pcm :
  chunked 160 (sendAudio pcm) /\ concat (sendAudio pcm) = downsample_compand pcm.
Proof. exact (sendAudio_spec pcm). Qed.

(** Downsampling and companding work group by group: a buffer whose first
    part is a whole number of 6-byte groups is encoded as the encodings of
    the two parts, one after the other. *)
Theorem downsample_compand_split a b k :
  length a = (6 * k)%nat ->
  downsample_compand (a ++ b) = downsample_compand a ++ downsample_compand b.
Proof. exact (downsample_compand_app a b k). Qed.

Lemma downsample_compand_split_witness :
  length [0; 0; 16; 39; 0; 0] = (6 * 1)%nat
  /\ downsample_compand ([0; 0; 16; 39; 0; 0] ++ [0; 128; 0; 0; 0; 0])
     = downsample_compand [0; 0; 16; 39; 0; 0] ++ downsample_compand [0; 128; 0; 0; 0; 0].
Proof.
  split; [reflexivity|].
  exact (downsample_compand_split [0; 0; 16; 39; 0; 0] [0; 128; 0; 0; 0; 0] 1 eq_refl).
Defined.

Lemma pcmToMuLawSample_order_witness :
  int16 100 /\ int16 1000 /\ pcmToMuLawSample 1000 <= pcmToMuLawSample 100.
Proof.
  assert (Ha : int16 100) by (unfold int16; lia).
  assert (Hb : int16 1000) by (unfold int16; lia).
  split; [exact Ha|]. split; [exact Hb|].
  exact (proj1 (proj2 (proj2 (pcmToMuLawSample_order 100 1000 Ha Hb))) ltac:(lia)).
Defined.

End StreamingFacts.

Module CallLifecycleFacts.
Import CallManager CallLifecycle.

Lemma wait_eq ps t st : exists r, waitForConnection ps t st = (r, st).
Proof.
  pose proof (CallManagerFacts.waitForConnection_state ps t st) as H.
  destruct (waitForConnection ps t st) as [r s]. simpl in H. subst. eauto.
Qed.

Lemma listen_eq env st : exists r, listen env st = (r, st).
Proof. unfold listen. destruct (env_race env); [destruct (env_hungUp_after_race env)| |]; eexists; reflexivity. Qed.

Lemma initiateCall_ok env user callId tok msg st cid resp st' :
  initiateCall env user callId tok msg st = (Ok (cid, resp), st') ->
  cid = callId /\ exists ccid, env_dial env = Some ccid /\
  activeCalls st' = <[callId := with_history [("claude", msg); ("user", resp)]
                                   (with_ccid ccid (new_call_state tok))]> (activeCalls st) /\
  callControlIdToCallId st' = <[ccid := callId]> (callControlIdToCallId st) /\
  wsTokenToCallId st' = <[tok := callId]> (wsTokenToCallId st).
Proof.
  unfold initiateCall, bind, try_catch, modify, update_call, ret, throw.
  destruct (env_dial env) as [ccid|]; [|simpl; discriminate].
  simpl. 
  match goal with |- context [waitForConnection ?ps ?t ?s] =>
    destruct (wait_eq ps t s) as [[[]|e] ->] end; [|discriminate].
  destruct (env_tts env) as [audio|]; [|discriminate].
  match goal with |- context [listen ?e ?s] =>
    destruct (listen_eq e s) as [[r|e'] ->] end; [|discriminate].
  intros H. inversion H; subst. clear H. simpl.
  split; [reflexivity|]. exists ccid. split; [reflexivity|].
  rewrite !alter_insert_eq. split; [reflexivity|]. split; reflexivity.
Qed.

Lemma initiateCall_err env user callId tok msg st e st' :
  initiateCall env user callId tok msg st = (Err e, st') ->
  activeCalls st' = delete callId (activeCalls st) /\
  (wsTokenToCallId st' = wsTokenToCallId st \/
   wsTokenToCallId st' = <[tok := callId]> (wsTokenToCallId st)) /\
  exists pre, effects st' = pre ++ [SttClosed callId].
Proof.
  unfold initiateCall, bind, try_catch, modify, update_call, ret, throw.
  destruct (env_dial env) as [ccid|].
  2:{ simpl. intros H. inversion H; subst. simpl. rewrite delete_insert_eq.
      split; [reflexivity|]. split; [left; reflexivity|]. eexists; reflexivity. }
  simpl.
  match goal with |- context [waitForConnection ?ps ?t ?s] =>
    destruct (wait_eq ps t s) as [[[]|e0] ->] end.
  2:{ simpl. intros H. inversion H; subst. simpl. rewrite alter_insert_eq, delete_insert_eq.
      split; [reflexivity|]. split; [right; reflexivity|]. eexists; reflexivity. }
  destruct (env_tts env) as [audio|].
  2:{ simpl. intros H. inversion H; subst. simpl. rewrite alter_insert_eq, delete_insert_eq.
      split; [reflexivity|]. split; [right; reflexivity|]. eexists; reflexivity. }
  match goal with |- context [listen ?e ?s] =>
    destruct (listen_eq e s) as [[r|e'] ->] end; [discriminate|].
  simpl. intros H. inversion H; subst. simpl. rewrite alter_insert_eq, delete_insert_eq.
  split; [reflexivity|]. split; [right; reflexivity|]. eexists; reflexivity.
Qed.

Lemma code_units_inj s1 s2 : code_units s1 = code_units s2 -> s1 = s2.
Proof.
  revert s2. induction s1 as [|a s1 IH]; intros [|b s2] H; simpl in H; try discriminate; [reflexivity|].
  inversion H as [[Hab Hs]]. apply Nat2Z.inj in Hab.
  rewrite <- (ascii_nat_embedding a), <- (ascii_nat_embedding b), Hab. f_equal. apply IH. exact Hs.
Qed.

Lemma code_units_nil s : code_units s = [] -> s = EmptyString.
Proof. destruct s; simpl; [reflexivity|discriminate]. Qed.

Lemma upgrade_token_sound b ids t st cid :
  upgrade b ids (Some t) st = Accept cid ->
  t <> EmptyString -> (exists c, wsTokenToCallId st !! t = Some c /\ JS.truthy_str (Some c) = true) ->
  exists state, wsTokenToCallId st !! t = Some cid /\ activeCalls st !! cid = Some state /\ wsToken state = t.
Proof.
  intros H Ht [c [Hc Hct]]. unfold upgrade in H. destruct t as [|a t']; [congruence|].
  destruct c as [|d c']; [discriminate Hct|].
  cbn -[Security.validateWebSocketToken code_units] in H. rewrite Hc in H.
  cbn -[Security.validateWebSocketToken code_units] in H.
  destruct (activeCalls st !! String d c') as [state|] eqn:Ea; [|discriminate].
  destruct (Security.validateWebSocketToken _ _) eqn:Ev; [|discriminate].
  inversion H; subst cid. exists state. split; [exact Hc|]. split; [exact Ea|].
  apply SecurityFacts.validate_iff in Ev as [_ Heq].
  symmetry. apply code_units_inj. exact Heq.
Qed.

Lemma upgrade_unmapped ids t st :
  (forall c, wsTokenToCallId st !! t = Some c -> JS.truthy_str (Some c) = false) ->
  upgrade false ids (Some t) st = Reject.
Proof.
  intros H. unfold upgrade. destruct t as [|a t']; [reflexivity|]. simpl.
  destruct (wsTokenToCallId st !! String a t') as [c|] eqn:E; [|reflexivity].
  specialize (H c eq_refl). destruct c; [reflexivity|discriminate].
Qed.

(** A token that maps to no call is treated like a missing token. *)
Lemma upgrade_unmapped_any free ids t st :
  (forall c, wsTokenToCallId st !! t = Some c -> JS.truthy_str (Some c) = false) ->
  upgrade free ids (Some t) st =
  if free then match last ids with Some c => Accept c | None => AcceptPending end else Reject.
Proof.
  intros H. unfold upgrade. destruct t as [|a t']; [reflexivity|]. simpl.
  destruct (wsTokenToCallId st !! String a t') as [c|] eqn:E; [|reflexivity].
  specialize (H c eq_refl). destruct c; [reflexivity|discriminate].
Qed.

Lemma upgrade_inactive ids t st cid :
  wsTokenToCallId st !! t = Some cid -> activeCalls st !! cid = None ->
  upgrade false ids (Some t) st = Reject.
Proof.
  intros Ht Ha. unfold upgrade. destruct t as [|a t']; [reflexivity|]. simpl. rewrite Ht.
  destruct cid as [|b cid']; [reflexivity|]. simpl. rewrite Ha. reflexivity.
Qed.

Lemma upgrade_own_token b ids st cid state :
  cid <> EmptyString -> wsToken state <> EmptyString ->
  wsTokenToCallId st !! wsToken state = Some cid -> activeCalls st !! cid = Some state ->
  upgrade b ids (Some (wsToken state)) st = Accept cid.
Proof.
  intros Hc Ht Hm Ha. unfold upgrade.
  destruct (wsToken state) as [|a t'] eqn:Et; [congruence|].
  cbn -[Security.validateWebSocketToken code_units]. rewrite Hm.
  destruct cid as [|d cid']; [congruence|]. cbn -[Security.validateWebSocketToken code_units].
  rewrite Ha, Et.
  assert (Hv : Security.validateWebSocketToken (code_units (String a t')) (Some (code_units (String a t'))) = true).
  { apply SecurityFacts.validate_iff. split; [discriminate|reflexivity]. }
  rewrite Hv. reflexivity.
Qed.

(** Off the ngrok free tier, the media-stream upgrade accepts a socket
    only for a non-empty token that is mapped to an active call whose own
    token it is; the call id accepted is the mapped one. *)
Theorem upgrade_accept_sound ids tok st cid :
  upgrade false ids tok st = Accept cid ->
  exists t state, tok = Some t /\ t <> EmptyString /\ wsTokenToCallId st !! t = Some cid /\
                  activeCalls st !! cid = Some state /\ wsToken state = t.
Proof.
  intros H. destruct tok as [t|]; [|discriminate].
  destruct t as [|a t']; [discriminate|].
  destruct (wsTokenToCallId st !! String a t') as [c|] eqn:Ec.
  - destruct c as [|d c'].
    + rewrite upgrade_unmapped in H; [discriminate|]. intros c Hc. rewrite Ec in Hc.
      inversion Hc; reflexivity.
    + destruct (upgrade_token_sound _ _ _ _ _ H ltac:(discriminate) (ex_intro _ _ (conj Ec eq_refl)))
        as [state [H1 [H2 H3]]].
      exists (String a t'), state. split; [reflexivity|]. split; [discriminate|]. auto.
  - rewrite upgrade_unmapped in H; [discriminate|]. intros c Hc. rewrite Ec in Hc. discriminate.
Qed.

(** After a successful [initiateCall], its token opens the media socket
    of its call (on either tier); after a failed one, a token that was not
    mapped before is rejected (off the free tier), as the call it was
    mapped to is no longer active. *)
Theorem initiateCall_token_upgrade env user callId tok msg st ids :
  (forall cid resp st', callId <> EmptyString -> tok <> EmptyString ->
     initiateCall env user callId tok msg st = (Ok (cid, resp), st') ->
     forall b, upgrade b ids (Some tok) st' = Accept callId)
  /\ (forall e st', wsTokenToCallId st !! tok = None ->
     initiateCall env user callId tok msg st = (Err e, st') ->
     upgrade false ids (Some tok) st' = Reject).
Proof.
  split.
  - intros cid resp st' Hc Ht H b.
    destruct (initiateCall_ok _ _ _ _ _ _ _ _ _ H) as [-> [ccid [_ [Ha [_ Hw]]]]].
    pose proof (upgrade_own_token b ids st' callId
      (with_history [("claude", msg); ("user", resp)] (with_ccid ccid (new_call_state tok)))) as U.
    simpl in U. apply U; [exact Hc|exact Ht| |].
    + rewrite Hw. apply lookup_insert_eq.
    + rewrite Ha. apply lookup_insert_eq.
  - intros e st' Hfresh H.
    destruct (initiateCall_err _ _ _ _ _ _ _ _ H) as [Ha [[Hw|Hw] _]].
    + apply upgrade_unmapped. intros c Hc. rewrite Hw, Hfresh in Hc. discriminate.
    + apply (upgrade_inactive _ _ _ callId).
      * rewrite Hw. apply lookup_insert_eq.
      * rewrite Ha. apply lookup_delete_eq.
Qed.

Lemma endCall_error speak_ok hangup_ok callId st e st' :
  endCall speak_ok hangup_ok callId st = (Some e, st') -> st' = st.
Proof.
  unfold endCall. destruct (activeCalls st !! callId) as [state|];
    [|intros H; inversion H; reflexivity].
  destruct speak_ok; [|intros H; inversion H; reflexivity].
  destruct (negb true); [intros H; inversion H; reflexivity|].
  destruct (JS.truthy_str (callControlId state) && negb hangup_ok);
    intros H; inversion H; reflexivity.
Qed.

Lemma endCall_facts speak_ok hangup_ok callId st :
  (forall e st', endCall speak_ok hangup_ok callId st = (Some e, st') -> st' = st)
  /\ (forall st', endCall speak_ok hangup_ok callId st = (None, st') ->
      exists state, activeCalls st !! callId = Some state /\ speak_ok = true /\
        activeCalls st' = delete callId (activeCalls st) /\
        wsTokenToCallId st' = delete (wsToken state) (wsTokenToCallId st) /\
        callControlIdToCallId st' =
          (if JS.truthy_str (callControlId state)
           then delete (default EmptyString (callControlId state)) (callControlIdToCallId st)
           else callControlIdToCallId st) /\
        effects st' = effects st ++ [SttClosed callId; WsClosed callId] /\
        forall free ids, upgrade free ids (Some (wsToken state)) st' =
          if free then match last ids with Some c => Accept c | None => AcceptPending end
          else Reject).
Proof.
  split; [apply endCall_error|].
  intros st' H. unfold endCall in H.
  destruct (activeCalls st !! callId) as [state|] eqn:Ea; [|discriminate].
  destruct speak_ok; [|discriminate]. simpl in H.
  destruct (JS.truthy_str (callControlId state)) eqn:Ec; simpl in H.
  - destruct hangup_ok; [|discriminate]. simpl in H. inversion H; subst st'. clear H.
    exists state. rewrite Ec. simpl. rewrite delete_insert_eq.
    do 5 (split; [reflexivity|]). split; [rewrite <- app_assoc; reflexivity|].
    intros free ids. apply upgrade_unmapped_any. intros c Hc. simpl in Hc.
    rewrite lookup_delete_eq in Hc. discriminate.
  - inversion H; subst st'. clear H.
    exists state. rewrite Ec. simpl. rewrite delete_insert_eq.
    do 5 (split; [reflexivity|]). split; [rewrite <- app_assoc; reflexivity|].
    intros free ids. apply upgrade_unmapped_any. intros c Hc. simpl in Hc.
    rewrite lookup_delete_eq in Hc. discriminate.
Qed.

(** [endCall] either fails and leaves the call manager as it was (no
    active call, the goodbye could not be spoken, or the hang-up request
    failed), or it succeeds for an active call: the call, its media token
    and its call control id are removed from the three maps, the speech
    session and the media socket are closed in that order, and the call's
    token no longer selects it: off the ngrok free tier the socket is
    refused, and on the free tier the token is treated like a missing one
    (the socket goes to the last active call, or to a pending placeholder
    when there is none). *)
Theorem endCall_spec speak_ok hangup_ok callId st :
  (forall e st', endCall speak_ok hangup_ok callId st = (Some e, st') -> st' = st)
  /\ (forall st', endCall speak_ok hangup_ok callId st = (None, st') ->
      exists state, activeCalls st !! callId = Some state /\ speak_ok = true /\
        activeCalls st' = delete callId (activeCalls st) /\
        wsTokenToCallId st' = delete (wsToken state) (wsTokenToCallId st) /\
        callControlIdToCallId st' =
          (if JS.truthy_str (callControlId state)
           then delete (default EmptyString (callControlId state)) (callControlIdToCallId st)
           else callControlIdToCallId st) /\
        effects st' = effects st ++ [SttClosed callId; WsClosed callId] /\
        forall free ids, upgrade free ids (Some (wsToken state)) st' =
          if free then match last ids with Some c => Accept c | None => AcceptPending end
          else Reject).
Proof. exact (endCall_facts speak_ok hangup_ok callId st). Qed.

Lemma upgrade_accept_sound_witness :
  upgrade false [] (Some "tok-1") Scenarios.started_cm = Accept "call-1"
  /\ exists t state, Some "tok-1"%string = Some t /\ t <> EmptyString
       /\ wsTokenToCallId Scenarios.started_cm !! t = Some "call-1"%string
       /\ activeCalls Scenarios.started_cm !! "call-1"%string = Some state /\ wsToken state = t.
Proof.
  assert (H : upgrade false [] (Some "tok-1") Scenarios.started_cm = Accept "call-1")
    by (vm_compute; reflexivity).
  split; [exact H|]. exact (upgrade_accept_sound _ _ _ _ H).
Defined.

Lemma initiateCall_token_upgrade_witness :
  upgrade true [] (Some "tok-1") Scenarios.started_cm = Accept "call-1"
  /\ upgrade false [] (Some "tok-1") Scenarios.failed_cm = Reject.
Proof.
  split.
  - exact (proj1 (initiateCall_token_upgrade Scenarios.env_ok "+15550100" "call-1" "tok-1"
             "Proceed?" Examples.empty_cm []) "call-1" "yes" Scenarios.started_cm
             ltac:(discriminate) ltac:(discriminate) ltac:(vm_compute; reflexivity) true).
  - exact (proj2 (initiateCall_token_upgrade Examples.env_never_ready "+15550100" "call-1"
             "tok-1" "Proceed?" Examples.empty_cm []) ConnectionTimeout Scenarios.failed_cm
             eq_refl ltac:(vm_compute; reflexivity)).
Defined.

Lemma endCall_spec_witness :
  Scenarios.ended_cm = Scenarios.ended_cm
  /\ activeCalls Scenarios.ended_cm = delete "call-1" (activeCalls Scenarios.started_cm)
  /\ CallLifecycle.endCall false true "call-1" Scenarios.started_cm
     = (Some SpeakFailed, Scenarios.started_cm).
Proof.
  split; [reflexivity|]. split.
  - destruct (proj2 (endCall_spec true true "call-1" Scenarios.started_cm)
                Scenarios.ended_cm ltac:(vm_compute; reflexivity)) as (state & _ & _ & Ha & _).
    exact Ha.
  - pose proof (proj1 (endCall_spec false true "call-1" Scenarios.started_cm)
                SpeakFailed (snd (CallLifecycle.endCall false true "call-1" Scenarios.started_cm))
                ltac:(vm_compute; reflexivity)) as He.
    rewrite <- He at 2. vm_compute. reflexivity.
Defined.

End CallLifecycleFacts.

Module CallServiceFacts.
Import CallManager CallService.

Lemma tracker_round_trip now callId c eventId cwd eventType content t :
  SessionTracker.callToSession t !! callId = None ->
  SessionTracker.hasActiveCall c t = false ->
  SessionTracker.removeCall callId
    (SessionTracker.registerCall now callId c eventId cwd eventType content t) = t.
Proof.
  intros Hc Hs. unfold SessionTracker.hasActiveCall in Hs.
  apply bool_decide_eq_false in Hs. apply eq_None_not_Some in Hs.
  unfold SessionTracker.removeCall, SessionTracker.registerCall. simpl.
  rewrite lookup_insert_eq. simpl. rewrite !delete_insert_id by assumption.
  destruct t; reflexivity.
Qed.

(** A successful [handleCall] for a fresh call id leaves the session
    tracker as it was, routes a non-empty response to the event's tmux
    target, records the call time in [lastCallAt] and the pruned history,
    and removes the call and its token from the call manager. *)
Theorem handleCall_success env speak_ok hangup_ok user callId tok now ev eventId message content svc
    response routed svc' :
  SessionTracker.callToSession (tracker svc) !! callId = None ->
  handleCall env speak_ok hangup_ok user callId tok now ev eventId message content svc
    = (inr (response, routed), svc') ->
  tracker svc' = tracker svc /\
  routed = (if JS.truthy_str (Some response) then Some (ev_tmux ev, response) else None) /\
  lastCallAt svc' = Some now /\
  callHistory svc' = Escalation.pruneCallHistory now (callHistory svc ++ [now]) /\
  exists cm cm', callManager svc = Some cm /\ callManager svc' = Some cm' /\
    activeCalls cm' = delete callId (activeCalls cm) /\
    wsTokenToCallId cm' = delete tok (wsTokenToCallId cm).
Proof.
  intros Hfresh. unfold handleCall, initiateCall.
  destruct (callManager svc) as [cm|] eqn:Ecm; [|discriminate].
  destruct (SessionTracker.hasActiveCall (ev_tmux ev) (tracker svc)) eqn:Ebusy; [discriminate|].
  destruct (CallManager.initiateCall env user callId tok message cm) as [[[cid resp]|e] cm1] eqn:Ei;
    [|discriminate].
  destruct (CallLifecycleFacts.initiateCall_ok _ _ _ _ _ _ _ _ _ Ei) as [-> [ccid [_ [Ha [_ Hw]]]]].
  unfold endCall. simpl.
  destruct (CallLifecycle.endCall speak_ok hangup_ok callId cm1) as [[e|] cm2] eqn:Ee; [discriminate|].
  intros H. inversion H; subst. clear H.
  destruct (proj2 (CallLifecycleFacts.endCall_facts _ _ _ _) _ Ee)
    as [state [Hs [_ [Ha2 [Hw2 _]]]]].
  rewrite Ha in Hs. rewrite lookup_insert_eq in Hs. inversion Hs; subst state. clear Hs.
  simpl in Hw2. simpl.
  split; [apply tracker_round_trip; assumption|].
  split.
  - unfold SessionTracker.getMapping, SessionTracker.registerCall. simpl. rewrite lookup_insert_eq.
    reflexivity.
  - split; [reflexivity|]. split; [reflexivity|].
    exists cm, cm2. split; [reflexivity|]. split; [reflexivity|].
    rewrite Ha2, Ha, Hw2, Hw, !delete_insert_eq. split; reflexivity.
Qed.

(** When [endCall] fails inside [handleCall], the error propagates before
    the session tracker is cleaned up: the call stays active in the call
    manager, the target keeps an active call, and every later
    [initiateCall] for a target with the same key fails with
    "Session already has active call" naming this call. *)
Theorem handleCall_end_failure_blocks env speak_ok hangup_ok user callId tok now ev eventId message
    content svc e svc' :
  callId <> EmptyString ->
  handleCall env speak_ok hangup_ok user callId tok now ev eventId message content svc
    = (inl (EndError e), svc') ->
  (exists cm', callManager svc' = Some cm' /\ is_Some (activeCalls cm' !! callId)) /\
  SessionTracker.hasActiveCall (ev_tmux ev) (tracker svc') = true /\
  forall env' user' callId' tok' now' ev' eventId' message' content',
    SessionTracker.getSessionKey (ev_tmux ev') = SessionTracker.getSessionKey (ev_tmux ev) ->
    initiateCall env' user' callId' tok' now' ev' eventId' message' content' svc'
      = (inl (SessionBusy (Some callId)), svc').
Proof.
  intros Hne. unfold handleCall, initiateCall.
  destruct (callManager svc) as [cm|] eqn:Ecm; [|discriminate].
  destruct (SessionTracker.hasActiveCall (ev_tmux ev) (tracker svc)) eqn:Ebusy; [discriminate|].
  destruct (CallManager.initiateCall env user callId tok message cm) as [[[cid resp]|e0] cm1] eqn:Ei;
    [|discriminate].
  destruct (CallLifecycleFacts.initiateCall_ok _ _ _ _ _ _ _ _ _ Ei) as [-> [ccid [_ [Ha _]]]].
  unfold endCall. simpl.
  destruct (CallLifecycle.endCall speak_ok hangup_ok callId cm1) as [[e1|] cm2] eqn:Ee; [|discriminate].
  intros H. inversion H; subst. clear H.
  pose proof (CallLifecycleFacts.endCall_error _ _ _ _ _ _ Ee) as ->.
  assert (Hact : SessionTracker.hasActiveCall (ev_tmux ev)
     (SessionTracker.registerCall now callId (ev_tmux ev) eventId (ev_cwd ev) (ev_event_type ev)
        (Some content) (tracker svc)) = true) by apply SessionTrackerFacts.register_has.
  split; [|split].
  - exists cm1. split; [reflexivity|]. rewrite Ha, lookup_insert_eq. eexists; reflexivity.
  - exact Hact.
  - intros env' user' callId' tok' now' ev' eventId' message' content' Hkey.
    unfold set_manager. simpl.
    unfold SessionTracker.hasActiveCall, SessionTracker.getCallIdForSession, SessionTracker.registerCall.
    simpl. rewrite Hkey, lookup_insert_eq. simpl.
    destruct callId as [|a c']; [congruence|]. reflexivity.
Qed.

(** Registering a call whose id is new for a target without an active call,
    then removing it, gives back exactly the tracker before. *)
Theorem register_remove_round_trip now callId c eventId cwd eventType content t :
  SessionTracker.callToSession t !! callId = None ->
  SessionTracker.hasActiveCall c t = false ->
  SessionTracker.removeCall callId
    (SessionTracker.registerCall now callId c eventId cwd eventType content t) = t.
Proof. exact (tracker_round_trip now callId c eventId cwd eventType content t). Qed.

Lemma handleCall_success_witness :
  CallService.tracker (snd (CallService.handleCall Scenarios.env_ok true true "+15550100" "call-1" "tok-1"
     5000000 Scenarios.event0 "evt-1" "Proceed?" "rm -rf build" Scenarios.service0))
  = CallService.tracker Scenarios.service0
  /\ CallService.lastCallAt (snd (CallService.handleCall Scenarios.env_ok true true "+15550100" "call-1" "tok-1"
     5000000 Scenarios.event0 "evt-1" "Proceed?" "rm -rf build" Scenarios.service0)) = Some 5000000.
Proof.
  destruct (handleCall_success Scenarios.env_ok true true "+15550100" "call-1" "tok-1"
     5000000 Scenarios.event0 "evt-1" "Proceed?" "rm -rf build" Scenarios.service0
     "yes" (Some (Examples.target "main" "0" "1", "yes"))
     (snd (CallService.handleCall Scenarios.env_ok true true "+15550100" "call-1" "tok-1"
        5000000 Scenarios.event0 "evt-1" "Proceed?" "rm -rf build" Scenarios.service0))
     ltac:(vm_compute; reflexivity) ltac:(vm_compute; reflexivity)) as (Ht & _ & Hl & _).
  split; [exact Ht|exact Hl].
Defined.

Lemma handleCall_end_failure_blocks_witness :
  CallService.initiateCall Scenarios.env_ok "+15550100" "call-2" "tok-2" 5001000 Scenarios.event0 "evt-2"
    "Proceed?" "rm -rf build"
    (snd (CallService.handleCall Scenarios.env_ok false true "+15550100" "call-1" "tok-1"
       5000000 Scenarios.event0 "evt-1" "Proceed?" "rm -rf build" Scenarios.service0))
  = (inl (CallService.SessionBusy (Some "call-1")),
     snd (CallService.handleCall Scenarios.env_ok false true "+15550100" "call-1" "tok-1"
       5000000 Scenarios.event0 "evt-1" "Proceed?" "rm -rf build" Scenarios.service0)).
Proof.
  destruct (handleCall_end_failure_blocks Scenarios.env_ok false true "+15550100" "call-1" "tok-1"
     5000000 Scenarios.event0 "evt-1" "Proceed?" "rm -rf build" Scenarios.service0
     CallLifecycle.SpeakFailed
     (snd (CallService.handleCall Scenarios.env_ok false true "+15550100" "call-1" "tok-1"
        5000000 Scenarios.event0 "evt-1" "Proceed?" "rm -rf build" Scenarios.service0))
     ltac:(discriminate) ltac:(vm_compute; reflexivity)) as (_ & _ & Hb).
  exact (Hb _ _ _ _ _ _ _ _ _ eq_refl).
Defined.

Lemma register_remove_round_trip_witness :
  SessionTracker.removeCall "call-1"
    (SessionTracker.registerCall 0 "call-1" (Examples.target "main" "0" "1") "ev-1" "/home/u/proj"
       "permission_prompt" None SessionTracker.empty_tracker) = SessionTracker.empty_tracker.
Proof.
  exact (register_remove_round_trip 0 "call-1" (Examples.target "main" "0" "1") "ev-1"
    "/home/u/proj" "permission_prompt" None SessionTracker.empty_tracker eq_refl eq_refl).
Defined.

End CallServiceFacts.

Module WebhookFacts.
Import CallManager.

(** The active call ids and the token map are the same before and after. *)
Definition same_calls_and_tokens (st st' : CMState) : Prop :=
  (forall k, is_Some (activeCalls st' !! k) <-> is_Some (activeCalls st !! k)) /\
  wsTokenToCallId st' = wsTokenToCallId st.

Lemma same_refl st : same_calls_and_tokens st st.
Proof. split; [tauto|reflexivity]. Qed.

Lemma same_emit st e : same_calls_and_tokens st (emit e st).
Proof. split; [tauto|reflexivity]. Qed.

Lemma same_update st callId c c' :
  activeCalls st !! callId = Some c ->
  same_calls_and_tokens st (set_activeCalls (<[callId := c']> (activeCalls st)) st).
Proof.
  intros Ec. split; [|reflexivity].
  intros k. simpl. destruct (decide (k = callId)) as [->|Hne].
  + rewrite lookup_insert_eq, Ec. split; intros; eexists; reflexivity.
  + rewrite lookup_insert_ne by congruence. reflexivity.
Qed.

(** The [call.hangup] branch. *)
Lemma hangup_branch ccid st :
  let st' := match callControlIdToCallId st !! ccid with
             | Some (String _ _ as callId) =>
                 let st1 := set_ccid (delete ccid (callControlIdToCallId st)) st in
                 match activeCalls st1 !! callId with
                 | Some c => emit (WsClosed callId)
                               (set_activeCalls (<[callId := with_hungUp c]> (activeCalls st1)) st1)
                 | None => st1
                 end
             | _ => st
             end in
  same_calls_and_tokens st st'
  /\ callControlIdToCallId st' =
     (if JS.truthy_str (callControlIdToCallId st !! ccid)
      then delete ccid (callControlIdToCallId st) else callControlIdToCallId st).
Proof.
  destruct (callControlIdToCallId st !! ccid) as [[|a callId]|]; simpl;
    try (split; [apply same_refl|reflexivity]).
  destruct (activeCalls st !! String a callId) as [c|] eqn:Ec.
  - split; [|reflexivity].
    destruct (same_update st (String a callId) c (with_hungUp c) Ec) as [Hk _].
    split; [exact Hk|reflexivity].
  - split; [split; [tauto|reflexivity]|reflexivity].
Qed.

(** The [streaming.started] branch. *)
Lemma ready_branch ccid st :
  let st' := match callControlIdToCallId st !! ccid with
             | Some (String _ _ as callId) =>
                 match activeCalls st !! callId with
                 | Some c => set_activeCalls (<[callId := with_ready c]> (activeCalls st)) st
                 | None => st
                 end
             | _ => st
             end in
  same_calls_and_tokens st st' /\ callControlIdToCallId st' = callControlIdToCallId st.
Proof.
  destruct (callControlIdToCallId st !! ccid) as [[|a callId]|]; simpl;
    try (split; [apply same_refl|reflexivity]).
  destruct (activeCalls st !! String a callId) as [c|] eqn:Ec; [|split; [apply same_refl|reflexivity]].
  split; [apply (same_update st _ c); exact Ec|reflexivity].
Qed.

(** X12: no Telnyx webhook adds or removes an active call or changes the
    media token map. The call control id map changes only for a
    [call.hangup] event with a non-empty call control id that maps to a
    non-empty call id: then exactly that call control id is dropped. Every
    other event, and an event without a call control id, leaves the map as
    it was. *)
Theorem handleTelnyxWebhook_frame ev st :
  let st' := handleTelnyxWebhook ev st in
  (forall k, is_Some (activeCalls st' !! k) <-> is_Some (activeCalls st !! k))
  /\ wsTokenToCallId st' = wsTokenToCallId st
  /\ callControlIdToCallId st' =
     match call_control_id ev with
     | Some ccid =>
         if bool_decide (event_type ev = Some "call.hangup"%string) && JS.truthy_str (Some ccid)
            && JS.truthy_str (callControlIdToCallId st !! ccid)
         then delete ccid (callControlIdToCallId st)
         else callControlIdToCallId st
     | None => callControlIdToCallId st
     end.
Proof.
  cbv zeta. unfold handleTelnyxWebhook.
  destruct (call_control_id ev) as [[|a ccid]|];
    [rewrite andb_false_r, andb_false_l; split; [tauto|split; reflexivity]| |split; [tauto|split; reflexivity]].
  rewrite andb_true_r.
  destruct (decide (event_type ev = Some "call.hangup"%string)) as [Eh|Eh].
  - rewrite Eh, bool_decide_true by reflexivity. simpl.
    destruct (hangup_branch (String a ccid) st) as [[Hk Ht] Hc].
    split; [exact Hk|split; [exact Ht|exact Hc]].
  - rewrite bool_decide_false by exact Eh. simpl.
    destruct (event_type ev) as [s|]; [|split; [tauto|split; reflexivity]].
    repeat match goal with
    | |- context [match ?x with EmptyString => _ | String _ _ => _ end] =>
        lazymatch type of x with string => destruct x end
    | |- context [match ?x with Ascii _ _ _ _ _ _ _ _ => _ end] =>
        lazymatch type of x with ascii => destruct x end
    | |- context [match ?b with true => _ | false => _ end] =>
        lazymatch type of b with bool => destruct b end
    end;
    first [ split; [tauto|split; reflexivity]
          | exfalso; apply Eh; reflexivity
          | destruct (ready_branch (String a ccid) st) as [[Hk Ht] Hc];
            split; [exact Hk|split; [exact Ht|exact Hc]] ].
Qed.

(** A repeated [call.hangup] webhook for the same call control id changes
    nothing more: handling it twice is handling it once. *)
Theorem hangup_webhook_idempotent ccid st :
  let ev := {| event_type := Some "call.hangup"%string; call_control_id := Some ccid |} in
  handleTelnyxWebhook ev (handleTelnyxWebhook ev st) = handleTelnyxWebhook ev st.
Proof.
  simpl. unfold handleTelnyxWebhook. simpl.
  destruct ccid as [|b ccid]; [reflexivity|].
  destruct (callControlIdToCallId st !! String b ccid) as [[|a callId]|] eqn:E;
    try (rewrite E; reflexivity).
  simpl. destruct (activeCalls st !! String a callId) as [c|]; simpl; rewrite lookup_delete_eq; reflexivity.
Qed.

End WebhookFacts.

Module ScriptsFacts.
Import Scripts.
Local Open Scope string_scope.

Lemma strip_prefix_app p s : strip_prefix p (p ++ s) = Some s.
Proof. induction p as [|c p IH]; simpl; [reflexivity|]. rewrite Ascii.eqb_refl. exact IH. Qed.

Lemma strip_prefix_prefix p s r : strip_prefix p s = Some r -> String.prefix p s = true.
Proof.
  revert s. induction p as [|c p IH]; intros [|d s] H; simpl in *; try discriminate; try reflexivity.
  destruct (Ascii.eqb_spec c d) as [->|]; [|discriminate].
  destruct (ascii_dec d d); [|congruence]. apply (IH s H).
Qed.

Lemma includes_cons c s sub : JS.includes (String c s) sub = String.prefix sub (String c s) || JS.includes s sub.
Proof. reflexivity. Qed.

Lemma includes_nil sub : JS.includes EmptyString sub = String.prefix sub EmptyString.
Proof. simpl. destruct sub; reflexivity. Qed.

Lemma prefix_char c s : String.prefix (String c EmptyString) (String c s) = true.
Proof. simpl. destruct (ascii_dec c c); [destruct s; reflexivity|congruence]. Qed.

Lemma split_first_none pat s : JS.includes s pat = false -> split_first pat s = None.
Proof.
  induction s as [|c s IH]; intros H; simpl.
  - destruct (strip_prefix pat EmptyString) eqn:E; [|reflexivity].
    apply strip_prefix_prefix in E. rewrite includes_nil, E in H. discriminate.
  - rewrite includes_cons in H. apply orb_false_iff in H as [H1 H2].
    destruct (strip_prefix pat (String c s)) eqn:E.
    + apply strip_prefix_prefix in E. congruence.
    + rewrite IH by exact H2. reflexivity.
Qed.

Lemma split_first_cons pat c s :
  strip_prefix pat (String c s) = None ->
  split_first pat (String c s) =
  match split_first pat s with Some (pre, post) => Some (String c pre, post) | None => None end.
Proof.
  intros H.
  change (split_first pat (String c s)) with
    (match strip_prefix pat (String c s) with
     | Some post => Some (EmptyString, post)
     | None =>
         match split_first pat s with
         | Some (pre, post) => Some (String c pre, post)
         | None => None
         end
     end).
  rewrite H. reflexivity.
Qed.

Lemma split_first_brace pat pre post :
  (exists p', pat = String "{" p') -> JS.includes pre "{" = false ->
  split_first pat (pre ++ pat ++ post) = Some (pre, post).
Proof.
  intros [p' ->]. induction pre as [|c pre IH]; intros H.
  - simpl. rewrite strip_prefix_app. reflexivity.
  - rewrite includes_cons in H. apply orb_false_iff in H as [H1 H2].
    assert (Hc : Ascii.eqb "{" c = false).
    { destruct (Ascii.eqb "{" c) eqn:E; [|reflexivity]. apply Ascii.eqb_eq in E. subst c.
      rewrite prefix_char in H1. discriminate H1. }
    change (String c pre +:+ ?x) with (String c (pre +:+ x)). rewrite split_first_cons by (cbn [strip_prefix]; rewrite Hc; reflexivity). rewrite (IH H2). reflexivity.
Qed.

Lemma get_substitution_plain matched pre post r :
  JS.includes r "$" = false -> get_substitution matched pre post r = r.
Proof.
  induction r as [|c r IH]; intros H; simpl; [reflexivity|].
  rewrite includes_cons in H. apply orb_false_iff in H as [H1 H2].
  destruct (Ascii.eqb_spec c "$") as [->|Hc].
  - rewrite prefix_char in H1. discriminate.
  - rewrite IH by exact H2. reflexivity.
Qed.

Lemma get_substitution_amp matched pre post x y :
  JS.includes x "$" = false -> JS.includes y "$" = false ->
  get_substitution matched pre post (x ++ "$&" ++ y) = x ++ matched ++ y.
Proof.
  intros Hx Hy. induction x as [|c x IH]; simpl.
  - rewrite get_substitution_plain by exact Hy. reflexivity.
  - rewrite includes_cons in Hx. apply orb_false_iff in Hx as [H1 H2].
    destruct (Ascii.eqb_spec c "$") as [->|Hc].
    + rewrite prefix_char in H1. discriminate.
    + rewrite IH by exact H2. reflexivity.
Qed.

Lemma string_app_assoc (a b c : string) : (a ++ b) ++ c = a ++ b ++ c.
Proof.
  induction a as [|x a IH]; [reflexivity|].
  change (String x ((a ++ b) ++ c) = String x (a ++ b ++ c)). rewrite IH. reflexivity.
Qed.

Lemma replace_first_brace pat s pre post repl :
  (exists p', pat = String "{" p') -> JS.includes pre "{" = false ->
  s = pre ++ pat ++ post ->
  replace_first s pat repl = pre ++ get_substitution pat pre post repl ++ post.
Proof.
  intros Hp Hpre ->. unfold replace_first. rewrite split_first_brace by assumption. reflexivity.
Qed.

(** [formatCallMessage] puts the content in place of the first
    placeholder of the prompt, after the greeting, when the content has no
    [$] and no [{] comes before the placeholder; other event types get the
    content after the greeting. *)
Theorem formatCallMessage_fills scripts content pre post :
  JS.includes content "$" = false -> JS.includes pre "{" = false ->
  (permissionPrompt scripts = pre ++ "{action}" ++ post ->
   formatCallMessage scripts "permission_prompt" content
   = greeting scripts ++ " " ++ pre ++ content ++ post) /\
  (questionPrompt scripts = pre ++ "{question}" ++ post ->
   formatCallMessage scripts "AskUserQuestion" content
   = greeting scripts ++ " " ++ pre ++ content ++ post) /\
  (forall eventType, eventType <> "permission_prompt" -> eventType <> "AskUserQuestion" ->
   formatCallMessage scripts eventType content = greeting scripts ++ " " ++ content).
Proof.
  intros Hc Hpre. split; [|split].
  - intros Hs. unfold formatCallMessage; cbv zeta. rewrite String.eqb_refl. cbv beta iota.
    rewrite (replace_first_brace _ _ pre post) by (assumption || (eexists; reflexivity)).
    rewrite get_substitution_plain by exact Hc. rewrite string_app_assoc. reflexivity.
  - intros Hs. unfold formatCallMessage; cbv zeta.
    assert (E1 : String.eqb "AskUserQuestion" "permission_prompt" = false) by reflexivity.
    rewrite E1, String.eqb_refl. cbv beta iota.
    rewrite (replace_first_brace _ _ pre post) by (assumption || (eexists; reflexivity)).
    rewrite get_substitution_plain by exact Hc. rewrite string_app_assoc. reflexivity.
  - intros et H1 H2. unfold formatCallMessage; cbv zeta.
    apply String.eqb_neq in H1, H2. rewrite H1, H2. rewrite string_app_assoc. reflexivity.
Qed.

(** A prompt without its placeholder drops the content: the message is the
    greeting and the prompt alone. *)
Theorem formatCallMessage_drops_content scripts content :
  (JS.includes (permissionPrompt scripts) "{action}" = false ->
   formatCallMessage scripts "permission_prompt" content
   = greeting scripts ++ " " ++ permissionPrompt scripts) /\
  (JS.includes (questionPrompt scripts) "{question}" = false ->
   formatCallMessage scripts "AskUserQuestion" content
   = greeting scripts ++ " " ++ questionPrompt scripts).
Proof.
  assert (E1 : String.eqb "AskUserQuestion" "permission_prompt" = false) by reflexivity.
  split; intros H; unfold formatCallMessage; cbv zeta; rewrite ?E1, String.eqb_refl; cbv beta iota;
    unfold replace_first; rewrite split_first_none by exact H;
    rewrite string_app_assoc; reflexivity.
Qed.

(** The content goes through [String.prototype.replace]'s substitution
    patterns: a [$&] in it is replaced by the placeholder itself. *)
Theorem formatCallMessage_dollar_amp scripts x y pre post :
  JS.includes x "$" = false -> JS.includes y "$" = false ->
  JS.includes pre "{" = false ->
  permissionPrompt scripts = pre ++ "{action}" ++ post ->
  formatCallMessage scripts "permission_prompt" (x ++ "$&" ++ y)
  = greeting scripts ++ " " ++ pre ++ x ++ "{action}" ++ y ++ post.
Proof.
  intros Hx Hy Hpre Hs. unfold formatCallMessage; cbv zeta. rewrite String.eqb_refl. cbv beta iota.
  rewrite (replace_first_brace _ _ pre post) by (assumption || (eexists; reflexivity)).
  rewrite get_substitution_amp by assumption.
  rewrite !string_app_assoc. reflexivity.
Qed.

Lemma formatCallMessage_fills_witness :
  Scripts.formatCallMessage Scenarios.scripts0 "permission_prompt" "run the tests"
  = "Hello. I need permission to run the tests. Should I proceed?"%string.
Proof.
  exact (proj1 (formatCallMessage_fills Scenarios.scripts0 "run the tests"
    "I need permission to " ". Should I proceed?" eq_refl eq_refl) eq_refl).
Defined.

Lemma formatCallMessage_drops_content_witness :
  Scripts.formatCallMessage (Scripts.Build_CallScriptsConfig "Hi." "May I proceed?" "Q?" "E" "Bye")
    "permission_prompt" "run the tests" = "Hi. May I proceed?"%string.
Proof.
  exact (proj1 (formatCallMessage_drops_content
    (Scripts.Build_CallScriptsConfig "Hi." "May I proceed?" "Q?" "E" "Bye") "run the tests") eq_refl).
Defined.

Lemma formatCallMessage_dollar_amp_witness :
  Scripts.formatCallMessage Scenarios.scripts0 "permission_prompt" "pay $& now"
  = "Hello. I need permission to pay {action} now. Should I proceed?"%string.
Proof.
  exact (formatCallMessage_dollar_amp Scenarios.scripts0 "pay " " now"
    "I need permission to " ". Should I proceed?" eq_refl eq_refl eq_refl eq_refl).
Defined.

End ScriptsFacts.

Module EscalationExtraFacts.
Import Escalation.

(** [evaluate] escalates only when escalation is enabled, the event type
    is eligible, it is not quiet hours and the rate limits allow a call. *)
Theorem evaluate_escalates_only_when_allowed `{RegexEngine} `{JsonEngine} ev ctx now local :
  shouldEscalate (evaluate ev ctx now local) = true ->
  enabled (config ev) = true
  /\ isEventTypeEligible (config ev) (event_type (event ctx)) = true
  /\ isQuietHours (config ev) local = false
  /\ fst (checkRateLimits (config ev) ctx now) = true.
Proof.
  unfold evaluate.
  destruct (enabled (config ev)); [|discriminate]. simpl.
  destruct (isEventTypeEligible _ _); [|discriminate]. simpl.
  destruct (isQuietHours _ _); [discriminate|].
  destruct (checkRateLimits _ _ _) as [[] rsn]; simpl; [|discriminate].
  intros _. auto.
Qed.

Lemma evaluateWithLLM_no_delay `{RegexEngine} `{JsonEngine} ev ctx :
  delayMs (evaluateWithLLM ev ctx) = None.
Proof.
  unfold evaluateWithLLM. destruct (llmProvider ev) as [analyze|]; [|reflexivity].
  destruct (analyze _) as [resp|]; [|reflexivity]. destruct (parse_llm_reply resp). reflexivity.
Qed.

(** A result carries a delay only when the notification timeout is still
    running: the reason is the pending notification, there is no
    escalation, no always-call pattern matched, a notification was sent at
    a non-zero time [t], and the delay is the positive rest of the timeout,
    [timeout * 1000 - (now - t)]. *)
Theorem evaluate_delay `{RegexEngine} `{JsonEngine} ev ctx now local d :
  delayMs (evaluate ev ctx now local) = Some d ->
  reason (evaluate ev ctx now local) = RNotificationPending
  /\ shouldEscalate (evaluate ev ctx now local) = false
  /\ matchesAlwaysCallPatterns ev (eventContent ctx) = false
  /\ 0 < d
  /\ exists t, notificationSentAt ctx = Some t /\ t <> 0
       /\ d = notificationTimeoutSeconds (triggers (config ev)) * 1000 - (now - t).
Proof.
  unfold evaluate.
  destruct (enabled (config ev)); [|discriminate]. simpl.
  destruct (isEventTypeEligible _ _); [|discriminate]. simpl.
  destruct (isQuietHours _ _); [discriminate|].
  destruct (checkRateLimits _ _ _) as [[] rsn]; simpl; [|discriminate].
  destruct (matchesAlwaysCallPatterns ev (eventContent ctx)); [discriminate|].
  destruct (JS.truthy_num (notificationSentAt ctx) && _) eqn:Hc.
  - intros Hd. simpl in Hd. injection Hd as <-. simpl. apply andb_true_iff in Hc as [Ht Hlt].
    apply Z.ltb_lt in Hlt.
    destruct (notificationSentAt ctx) as [t|]; simpl in *; [|discriminate].
    apply negb_true_iff, Z.eqb_neq in Ht.
    repeat split; [lia|]. exists t. auto.
  - destruct (useLlmForEscalation _ && _); [rewrite (evaluateWithLLM_no_delay ev ctx)|]; discriminate.
Qed.

(** Quiet hours never hold when the local time cannot be computed, when
    the start or the end minutes are [NaN] (a part that [Number()]
    rejects, or no [':']), or when start and end are the same time: the
    window is then empty. *)
Theorem isQuietHours_degenerate cfg local :
  local = None
  \/ parse_minutes (qh_start (quietHours cfg)) = S754_nan
  \/ parse_minutes (qh_end (quietHours cfg)) = S754_nan
  \/ parse_minutes (qh_start (quietHours cfg)) = parse_minutes (qh_end (quietHours cfg)) ->
  isQuietHours cfg local = false.
Proof.
  intros Hd. unfold isQuietHours.
  destruct (qh_enabled _); [|reflexivity]. simpl.
  destruct local as [[hour minute]|]; [|reflexivity].
  unfold in_quiet_window.
  destruct Hd as [Hd|[Hd|[Hd|Hd]]]; [discriminate| | |]; rewrite Hd.
  - rewrite F64Facts.ltb_nan_r, F64Facts.leb_nan_l. reflexivity.
  - rewrite F64Facts.ltb_nan_l, F64Facts.ltb_nan_r, andb_false_r. reflexivity.
  - rewrite F64Facts.ltb_irrefl. apply F64Facts.leb_ltb_swap.
Qed.

Lemma evaluate_escalates_only_when_allowed_witness : exists ev,
  @Escalation.constructor MiniRegex.engine (Examples.with_enabled Escalation.defaultCallEscalationConfig) None = Some ev
  /\ Escalation.shouldEscalate (@Escalation.evaluate MiniRegex.engine Examples.json_never ev
       Examples.delete_production_ctx 1400000 (Some (12, 0))) = true
  /\ Escalation.isQuietHours (Examples.with_enabled Escalation.defaultCallEscalationConfig) (Some (12, 0)) = false.
Proof.
  eexists. split; [reflexivity|].
  match goal with |- ?A /\ _ => assert (H : A) by (vm_compute; reflexivity) end.
  split; [exact H|].
  exact (proj1 (proj2 (proj2 (@evaluate_escalates_only_when_allowed MiniRegex.engine
     Examples.json_never _ Examples.delete_production_ctx 1400000 (Some (12, 0)) H)))).
Defined.
Lemma evaluate_delay_witness : exists ev,
  @constructor MiniRegex.engine (Examples.with_enabled defaultCallEscalationConfig) None = Some ev
  /\ delayMs (@evaluate MiniRegex.engine Examples.json_never ev Examples.delete_production_ctx
       1200000 (Some (12, 0))) = Some 110000
  /\ reason (@evaluate MiniRegex.engine Examples.json_never ev Examples.delete_production_ctx
       1200000 (Some (12, 0))) = RNotificationPending.
Proof.
  eexists. split; [reflexivity|].
  match goal with |- ?A /\ _ => assert (H : A) by (vm_compute; reflexivity) end.
  split; [exact H|].
  exact (proj1 (@evaluate_delay MiniRegex.engine Examples.json_never _ _ _ _ _ H)).
Defined.

Lemma isQuietHours_degenerate_witness :
  parse_minutes (qh_start (quietHours Scenarios.same_window_cfg))
  = parse_minutes (qh_end (quietHours Scenarios.same_window_cfg))
  /\ isQuietHours Scenarios.same_window_cfg (Some (9, 0)) = false.
Proof.
  assert (H : parse_minutes (qh_start (quietHours Scenarios.same_window_cfg))
              = parse_minutes (qh_end (quietHours Scenarios.same_window_cfg))) by (vm_compute; reflexivity).
  split; [exact H|].
  apply isQuietHours_degenerate. right; right; right. exact H.
Defined.

End EscalationExtraFacts.

Module TrackerQueriesFacts.
Import SessionTracker TrackerQueries.

(** [getActiveCallCount] counts the registered call ids: [registerCall]
    adds one unless the call id is already registered, and [removeCall]
    takes one away exactly when it is registered; calls registered for the
    same target are counted separately. *)
Theorem getActiveCallCount_register_remove now callId c eventId cwd eventType content t :
  getActiveCallCount (registerCall now callId c eventId cwd eventType content t)
    = (if bool_decide (is_Some (callToSession t !! callId))
       then getActiveCallCount t else S (getActiveCallCount t))
  /\ getActiveCallCount (removeCall callId t)
    = (if bool_decide (is_Some (callToSession t !! callId))
       then pred (getActiveCallCount t) else getActiveCallCount t).
Proof.
  unfold getActiveCallCount, registerCall, removeCall. cbn [callToSession]. split.
  - destruct (callToSession t !! callId) as [m|] eqn:E.
    + rewrite bool_decide_true by eauto. apply map_size_insert_Some. eauto.
    + rewrite bool_decide_false by (intros [? ?]; discriminate).
      apply map_size_insert_None. exact E.
  - destruct (callToSession t !! callId) as [m|] eqn:E.
    + rewrite bool_decide_true by eauto. cbn [callToSession].
      rewrite map_size_delete_Some by eauto. lia.
    + rewrite bool_decide_false by (intros [? ?]; discriminate). reflexivity.
Qed.

End TrackerQueriesFacts.

Module SecurityExtraFacts.

(** A timestamp header that [parseInt] reads as [NaN] skips the freshness
    check: the request is then accepted, at any local time, exactly when
    the Ed25519 signature over [timestamp|body] verifies. *)
Theorem validateTelnyxSignature_nan_timestamp `{Security.Ed25519} now key sgs tss body :
  sgs <> EmptyString -> tss <> EmptyString -> JS.parseInt10 tss = None ->
  Security.validateTelnyxSignature now key (Some sgs) (Some tss) body
  = Security.ed25519_verify key (tss ++ "|" ++ body) sgs.
Proof.
  intros Hs Ht Hn. unfold Security.validateTelnyxSignature.
  destruct sgs; [congruence|]. destruct tss; [congruence|]. simpl.
  rewrite Hn. reflexivity.
Qed.


Lemma validateTelnyxSignature_nan_timestamp_witness :
  JS.parseInt10 "never" = None
  /\ @Security.validateTelnyxSignature Scenarios.ed25519_accept 0 "key" (Some "sig"%string)
       (Some "never"%string) "body" = true.
Proof.
  assert (H : JS.parseInt10 "never" = None) by reflexivity.
  split; [exact H|].
  rewrite (@validateTelnyxSignature_nan_timestamp Scenarios.ed25519_accept 0 "key" "sig" "never" "body"
             ltac:(discriminate) ltac:(discriminate) H).
  reflexivity.
Defined.

End SecurityExtraFacts.

